(** * sqs-fargate-consumer: worker pool, metrics collector and scaler

    A shallow embedding of package [consumer] (the metrics collector,
    worker.go, consumer.go, scaler.go) and the properties of its
    specification.

    Conventions of the embedding.
    - [time.Time] and [time.Duration] are integers counting nanoseconds
      ([Z]); [t.After(u)] is [u < t], [t.Add(d)] is [t + d] and
      [time.Since(t)] is [now - t].  A function that reads [time.Now()]
      takes the reading as its argument [now]; all the readings inside one
      call are identified with that instant.
    - [float64] values are exact rationals ([Q]); rounding is not modelled.
      Equality of metric values is [Qeq].  What is stated of an average
      is how the value is computed and how decisions depend on it, not
      bounds that exact sums and quotients would give it.
    - Go maps are [gmap]s.  The key that [for id := range m] yields first
      is an argument of the function that iterates.
    - An [error] is its message; [nil] is [None].
    - Channels, goroutines and the AWS clients appear as events in the
      trace a function returns; an AWS call's outcome is given by an
      oracle argument. *)

From Stdlib Require Import ZArith QArith Qminmax Lia.
From stdpp Require Import gmap strings list fin_maps sorting pretty.

Local Open Scope Z_scope.

(** ** Time *)

Definition Time := Z.
Definition Duration := Z.

Definition Nanosecond : Duration := 1.
Definition Millisecond : Duration := 1000000.
Definition Second : Duration := 1000000000.
Definition Minute : Duration := 60 * Second.

Definition After (t u : Time) : bool := u <? t.
Definition Since (now t : Time) : Duration := now - t.

(** [d.Seconds()]: the duration as a floating-point number of seconds. *)
Definition Seconds (d : Duration) : Q := (inject_Z d / inject_Z Second)%Q.

(** [d.Milliseconds()]: integer count of milliseconds, truncated toward
    zero as Go's integer division does. *)
Definition Milliseconds (d : Duration) : Z := Z.quot d 1000000.

(** [t.Unix()]: whole seconds since the epoch. *)
Definition Unix (t : Time) : Z := t / Second.

(** Comparison of [float64] values. *)
Definition Qgtb (x y : Q) : bool := negb (Qle_bool x y).
Definition Qltb (x y : Q) : bool := negb (Qle_bool y x).

(** ** Metrics collector (type [MetricsCollector]) *)

Record Metric := {
  Name : string;
  Value : Q;
  Unit : string;
  Timestamp : Time
}.

Record MetricDataPoint := {
  dpValue : Q;
  dpTimestamp : Time
}.

Definition MetricWorkerCount : string := "WorkerCount".
Definition MetricWorkerUtilization : string := "WorkerUtilization".
Definition MetricQueueDepth : string := "QueueDepth".
Definition MetricProcessingTime : string := "ProcessingTime".

(** The collector's mutex-protected state.  The [metrics] channel is not
    part of it: a send on the channel is an event of the sender, and
    [processMetric] is applied to each metric the drain loop receives. *)
Record MetricsCollector := {
  metricValues : gmap string Q;
  metricWindow : gmap string (list MetricDataPoint);
  namespace : string
}.

Definition NewMetricsCollector (ns : string) : MetricsCollector :=
  {| metricValues := ∅; metricWindow := ∅; namespace := ns |}.

Definition GetMetric (name : string) (c : MetricsCollector) : Q :=
  match metricValues c !! name with
  | Some value => value
  | None => 0%Q
  end.

(** The accumulation loop of [GetMetricAverage]: [sum] and [count] over
    the points strictly after [cutoff]. *)
Definition average_step (cutoff : Time) (acc : Q * Z) (dp : MetricDataPoint)
  : Q * Z :=
  if After (dpTimestamp dp) cutoff
  then ((fst acc + dpValue dp)%Q, snd acc + 1)
  else acc.

Definition average_loop (cutoff : Time) (dataPoints : list MetricDataPoint)
  : Q * Z :=
  fold_left (average_step cutoff) dataPoints (0%Q, 0).

Definition GetMetricAverage (now : Time) (name : string) (duration : Duration)
    (c : MetricsCollector) : Q :=
  let dataPoints := default [] (metricWindow c !! name) in
  if (length dataPoints =? 0)%nat then 0%Q
  else
    let cutoff := now + (- duration) in
    let '(sum, count) := average_loop cutoff dataPoints in
    if count =? 0 then 0%Q
    else (sum / inject_Z count)%Q.

(** The search loop of [cleanupOldDataPoints]: index of the first point
    after [cutoff], and 0 when the loop ends without finding one. *)
Fixpoint keepIndex_loop (cutoff : Time) (i : nat)
    (dataPoints : list MetricDataPoint) : nat :=
  match dataPoints with
  | [] => 0%nat
  | dp :: rest =>
      if After (dpTimestamp dp) cutoff then i
      else keepIndex_loop cutoff (S i) rest
  end.

Definition cleanupOldDataPoints (now : Time) (metricName : string)
    (c : MetricsCollector) : MetricsCollector :=
  let cutoff := now + (- (30 * Minute)) in
  let dataPoints := default [] (metricWindow c !! metricName) in
  let keepIndex := keepIndex_loop cutoff 0 dataPoints in
  if (0 <? keepIndex)%nat
  then {| metricValues := metricValues c;
          metricWindow := <[metricName := drop keepIndex dataPoints]> (metricWindow c);
          namespace := namespace c |}
  else c.

Definition processMetric (now : Time) (metric : Metric) (c : MetricsCollector)
  : MetricsCollector :=
  let values := <[Name metric := Value metric]> (metricValues c) in
  let dataPoint := {| dpValue := Value metric; dpTimestamp := Timestamp metric |} in
  let window0 :=
    match metricWindow c !! Name metric with
    | Some _ => metricWindow c
    | None => <[Name metric := []]> (metricWindow c)
    end in
  let window1 :=
    <[Name metric := default [] (window0 !! Name metric) ++ [dataPoint]]> window0 in
  cleanupOldDataPoints now (Name metric)
    {| metricValues := values; metricWindow := window1; namespace := namespace c |}.

(** The window of a metric name, as [GetMetricAverage] reads it. *)
Definition window (name : string) (c : MetricsCollector) : list MetricDataPoint :=
  default [] (metricWindow c !! name).

(** [RecordMetric] builds the metric that is sent on the channel. *)
Definition RecordMetric (now : Time) (name : string) (value : Q) (unit : string)
  : Metric :=
  {| Name := name; Value := value; Unit := unit; Timestamp := now |}.

Definition RecordProcessingTime (now : Time) (duration : Duration) : Metric :=
  RecordMetric now MetricProcessingTime (inject_Z (Milliseconds duration)) "Milliseconds".

Definition RecordQueueDepth (now : Time) (depth : Z) : Metric :=
  RecordMetric now MetricQueueDepth (inject_Z depth) "Count".

Definition RecordWorkerUtilization (now : Time) (utilizationPercentage : Q) : Metric :=
  RecordMetric now MetricWorkerUtilization utilizationPercentage "Percent".

Definition RecordError (now : Time) (errorType : string) : Metric :=
  RecordMetric now ("Error_" ++ errorType) 1%Q "Count".

(** ** Events

    What a function does to the outside world, in program order: log
    lines, sends on the collector's channel, SQS calls, goroutines it
    starts, channels it closes, and (in the scaler's trace) the pool
    operations it invokes with their results. *)

Inductive Event :=
| ELog (line : string)
| EMetric (m : Metric)
| EDeleteMessage (queueURL receiptHandle : string)
| EChangeMessageVisibility (queueURL receiptHandle : string) (visibilityTimeout : Z)
| ESleep (d : Duration)
| EGo (routine workerID : string)
| EClose (workerID : string)
| EAddWorker (err : option string)
| ERemoveWorker (err : option string).

(** ** Worker (worker.go) *)

Record Message := {
  MessageId : string;
  ReceiptHandle : string;
  Body : string
}.

(** Outcomes of the two SQS calls a worker makes after handling a message
    ([None] for success, [Some e] for the error returned). *)
Record SQSClient := {
  DeleteMessage : string -> string -> option string;
  ChangeMessageVisibility : string -> string -> Z -> option string
}.

(** [w_done] is [true] once the [done] channel has been closed. *)
Record Worker := {
  w_id : string;
  w_queueURL : string;
  w_done : bool;
  w_processingTime : Duration;
  w_isProcessing : bool;
  w_processedCount : Z;
  w_lastWindowTime : Z
}.

(** [atomic.Int64] arithmetic wraps around. *)
Definition wrap64 (x : Z) : Z := (x + 2^63) mod 2^64 - 2^63.

Definition set_isProcessing (b : bool) (w : Worker) : Worker :=
  {| w_id := w_id w; w_queueURL := w_queueURL w; w_done := w_done w;
     w_processingTime := w_processingTime w; w_isProcessing := b;
     w_processedCount := w_processedCount w;
     w_lastWindowTime := w_lastWindowTime w |}.

Definition set_processedCount (n : Z) (w : Worker) : Worker :=
  {| w_id := w_id w; w_queueURL := w_queueURL w; w_done := w_done w;
     w_processingTime := w_processingTime w; w_isProcessing := w_isProcessing w;
     w_processedCount := n;
     w_lastWindowTime := w_lastWindowTime w |}.

Definition set_lastWindowTime (t : Z) (w : Worker) : Worker :=
  {| w_id := w_id w; w_queueURL := w_queueURL w; w_done := w_done w;
     w_processingTime := w_processingTime w; w_isProcessing := w_isProcessing w;
     w_processedCount := w_processedCount w;
     w_lastWindowTime := t |}.

(** [NewWorker]; the [go w.trackUtilization()] it performs is an event of
    the caller ([addWorker]). *)
Definition NewWorker (now : Time) (id queueURL : string) : Worker :=
  {| w_id := id; w_queueURL := queueURL; w_done := false;
     w_processingTime := 30 * Second; w_isProcessing := false;
     w_processedCount := 0; w_lastWindowTime := Unix now |}.

(** [Stop]: [close(w.done)]. *)
Definition Stop (w : Worker) : Worker :=
  {| w_id := w_id w; w_queueURL := w_queueURL w; w_done := true;
     w_processingTime := w_processingTime w; w_isProcessing := w_isProcessing w;
     w_processedCount := w_processedCount w;
     w_lastWindowTime := w_lastWindowTime w |}.

(** [processMessage] logs, sleeps and returns the handler's outcome.  In
    the source the outcome is always [nil] ([handler_placeholder]); the
    worker loop is written, and verified, for any outcome. *)
Definition handler_placeholder : Message -> option string := fun _ => None.

Definition processMessage (handler : Message -> option string) (msg : Message)
  : list Event * option string :=
  ([ELog ("Processing message " ++ MessageId msg); ESleep (5 * Second)],
   handler msg).

Definition deleteMessage (client : SQSClient) (w : Worker) (msg : Message)
  : list Event * option string :=
  ([EDeleteMessage (w_queueURL w) (ReceiptHandle msg)],
   DeleteMessage client (w_queueURL w) (ReceiptHandle msg)).

Definition handleError (client : SQSClient) (now : Time) (w : Worker)
    (msg : Message) (err : string) : list Event :=
  [ELog ("Error processing message " ++ MessageId msg ++ ": " ++ err);
   EMetric (RecordError now "processing_error");
   EChangeMessageVisibility (w_queueURL w) (ReceiptHandle msg) 30]
  ++ match ChangeMessageVisibility client (w_queueURL w) (ReceiptHandle msg) 30 with
     | Some changeErr => [ELog ("Error changing message visibility: " ++ changeErr)]
     | None => []
     end.

(** One received message with the clock readings around its handling:
    [startTime] before, [endTime] after. *)
Record Delivery := {
  d_msg : Message;
  d_startTime : Time;
  d_endTime : Time
}.

(** The body of [for _, msg := range messages] in [Worker.Start]. *)
Definition handleDelivery (handler : Message -> option string)
    (client : SQSClient) (d : Delivery) (w : Worker) : list Event * Worker :=
  let msg := d_msg d in
  let w1 := set_isProcessing true w in
  let '(ev1, res) := processMessage handler msg in
  let '(ev2, w2) :=
    match res with
    | Some err => (handleError client (d_endTime d) w1 msg err, w1)
    | None =>
        let '(ev, _) := deleteMessage client w1 msg in
        (ev, set_processedCount (wrap64 (w_processedCount w1 + 1)) w1)
    end in
  let w3 := set_isProcessing false w2 in
  let processingDuration := Since (d_endTime d) (d_startTime d) in
  (ev1 ++ ev2 ++ [EMetric (RecordProcessingTime (d_endTime d) processingDuration)],
   w3).

(** One pass of the [default] arm of [Worker.Start], after a poll that
    returned [messages] without error. *)
Fixpoint handleBatch (handler : Message -> option string) (client : SQSClient)
    (messages : list Delivery) (w : Worker) : list Event * Worker :=
  match messages with
  | [] => ([], w)
  | d :: rest =>
      let '(ev, w1) := handleDelivery handler client d w in
      let '(ev', w2) := handleBatch handler client rest w1 in
      (ev ++ ev', w2)
  end.

(** One firing of the ticker in [trackUtilization]. *)
Definition trackUtilization_tick (nowT : Time) (w : Worker) : list Event * Worker :=
  let now := Unix nowT in
  let lastWindow := w_lastWindowTime w in
  let w1 := set_lastWindowTime now w in
  let timeWindow := wrap64 (now - lastWindow) in
  if 0 <? timeWindow then
    let processed := w_processedCount w1 in
    let w2 := set_processedCount 0 w1 in
    let utilization := (inject_Z processed / inject_Z timeWindow * 100)%Q in
    let utilization := if Qgtb utilization 100 then 100%Q else utilization in
    ([EMetric (RecordWorkerUtilization nowT utilization)], w2)
  else ([], w1).

(** ** Consumer (consumer.go) *)

Record Config := {
  QueueURL : string;
  InitialWorkerCount : Z;
  MaxWorkerCount : Z;
  MinWorkerCount : Z;
  ScaleUpThreshold : Q;
  ScaleDownThreshold : Q;
  CooldownPeriod : Duration;
  TargetProcessingTime : Duration
}.

Record Consumer := {
  c_queueURL : string;
  c_workers : gmap string Worker;
  c_config : Config
}.

Definition NewConsumer (config : Config) : Consumer :=
  {| c_queueURL := QueueURL config; c_workers := ∅; c_config := config |}.

Definition set_workers (ws : gmap string Worker) (c : Consumer) : Consumer :=
  {| c_queueURL := c_queueURL c; c_workers := ws; c_config := c_config c |}.

(** [len(c.workers)] *)
Definition len_workers (c : Consumer) : Z := Z.of_nat (size (c_workers c)).

Definition MaxReached : string := "max worker count reached".
Definition MinReached : string := "min worker count reached".

(** [addWorker]; [workerID] is the value of [uuid.New().String()]. *)
Definition addWorker (now : Time) (workerID : string) (c : Consumer)
  : option string * Consumer * list Event :=
  if MaxWorkerCount (c_config c) <=? len_workers c
  then (Some MaxReached, c, [])
  else
    let worker := NewWorker now workerID (c_queueURL c) in
    (None,
     set_workers (<[workerID := worker]> (c_workers c)) c,
     [EGo "trackUtilization" workerID; EGo "Start" workerID]).

(** [removeWorker]; [first] is the key that [for id := range c.workers]
    yields first (the empty string when the loop body does not run).
    [worker.Stop()] is taken to succeed: the function describes the
    call on pools whose workers have their [done] channel open
    ([workers_wf]), which are the pools [Start], [addWorker] and
    [removeWorker] produce; a [close] of a closed channel, which
    panics, is modelled with [Shutdown] ([close_done]). *)
Definition removeWorker (first : string) (c : Consumer)
  : option string * Consumer * list Event :=
  if len_workers c <=? MinWorkerCount (c_config c)
  then (Some MinReached, c, [])
  else
    let workerToRemove := first in
    match c_workers c !! workerToRemove with
    | Some worker =>
        (None, set_workers (delete workerToRemove (c_workers c)) c,
         [EClose (w_id worker)])
    | None => (None, c, [])
    end.

(** What [range] may yield first on a map. *)
Definition range_first (m : gmap string Worker) (first : string) : Prop :=
  (m = ∅ ∧ first = "") ∨ is_Some (m !! first).

(** The loop of [Consumer.Start], with [n] iterations left and [i] the
    number of identifiers drawn so far from the stream [uuid]. *)
Fixpoint Start_loop (now : Time) (uuid : nat -> string) (i n : nat) (c : Consumer)
  : option string * Consumer * list Event :=
  match n with
  | O => (None, c, [])
  | S n' =>
      match addWorker now (uuid i) c with
      | (Some err, c', ev) =>
          (Some ("failed to start initial workers: " ++ err)%string, c', ev)
      | (None, c', ev) =>
          let '(r, c'', ev') := Start_loop now uuid (S i) n' c' in
          (r, c'', ev ++ ev')
      end
  end.

Definition Start (now : Time) (uuid : nat -> string) (c : Consumer)
  : option string * Consumer * list Event :=
  match Start_loop now uuid 0 (Z.to_nat (InitialWorkerCount (c_config c))) c with
  | (Some err, c', ev) => (Some err, c', ev)
  | (None, c', ev) =>
      (None, c', ev ++ [EGo "reportMetrics" ""; EGo "monitorQueueDepth" ""])
  end.

(** ** Scaler (scaler.go) *)

Record Scaler := {
  s_config : Config;
  s_lastScaleEvent : Time
}.

Definition NewScaler (now : Time) (config : Config) : Scaler :=
  {| s_config := config; s_lastScaleEvent := now |}.

Definition set_lastScaleEvent (t : Time) (s : Scaler) : Scaler :=
  {| s_config := s_config s; s_lastScaleEvent := t |}.

Definition shouldScaleUp (s : Scaler) (queueDepth processingTime utilization : Q)
  : bool :=
  Qgtb queueDepth (ScaleUpThreshold (s_config s))
  || Qgtb utilization 75
  || Qgtb processingTime (Seconds (TargetProcessingTime (s_config s))).

Definition shouldScaleDown (s : Scaler) (queueDepth processingTime utilization : Q)
  : bool :=
  Qltb queueDepth (ScaleDownThreshold (s_config s))
  && Qltb utilization 40
  && Qltb processingTime (Seconds (TargetProcessingTime (s_config s))).

(** What one tick reads besides the shared state: the clock, the
    identifier [uuid.New()] would return, and the key [range] would
    yield first. *)
Record Tick := {
  tick_now : Time;
  tick_uuid : string;
  tick_first : string
}.

Definition logErr (pre : string) (err : option string) : list Event :=
  match err with
  | Some e => [ELog (pre ++ e)]
  | None => []
  end.

Definition evaluateScaling (t : Tick) (m : MetricsCollector) (c : Consumer)
    (s : Scaler) : Scaler * Consumer * list Event :=
  let now := tick_now t in
  let queueDepth := GetMetric MetricQueueDepth m in
  let processingTime := GetMetricAverage now MetricProcessingTime (1 * Minute) m in
  let workerUtilization := GetMetricAverage now MetricWorkerUtilization (1 * Minute) m in
  if shouldScaleUp s queueDepth processingTime workerUtilization then
    let '(err, c', ev) := addWorker now (tick_uuid t) c in
    (set_lastScaleEvent now s, c',
     [EAddWorker err] ++ ev ++ logErr "Failed to scale up: " err)
  else if shouldScaleDown s queueDepth processingTime workerUtilization then
    if CooldownPeriod (s_config s) <? Since now (s_lastScaleEvent s) then
      let '(err, c', ev) := removeWorker (tick_first t) c in
      (set_lastScaleEvent now s, c',
       [ERemoveWorker err] ++ ev ++ logErr "Failed to scale down: " err)
    else (s, c, [])
  else (s, c, []).

(** ** Reference definitions for the metrics window *)

(** The points of a window whose timestamp is strictly newer than
    [now - d]. *)
Definition newer (cutoff : Time) (l : list MetricDataPoint)
  : list MetricDataPoint :=
  filter (λ dp, cutoff < dpTimestamp dp) l.

Definition recent (now : Time) (d : Duration) (l : list MetricDataPoint)
  : list MetricDataPoint :=
  newer (now - d) l.

Definition Qsum (l : list Q) : Q := foldr Qplus 0%Q l.

(** Unweighted mean of the values of a list of points. *)
Definition mean (l : list MetricDataPoint) : Q :=
  (Qsum (map dpValue l) / inject_Z (Z.of_nat (length l)))%Q.

(** A point is stale at [now] when it is not strictly newer than
    [now - 30min]. *)
Definition stale (now : Time) (dp : MetricDataPoint) : Prop :=
  dpTimestamp dp <= now - 30 * Minute.

Definition fresh (now : Time) (dp : MetricDataPoint) : Prop :=
  now - 30 * Minute < dpTimestamp dp.

Definition point_of (metric : Metric) : MetricDataPoint :=
  {| dpValue := Value metric; dpTimestamp := Timestamp metric |}.

(** Timestamps in non-decreasing order. *)
Definition time_ordered (l : list MetricDataPoint) : Prop :=
  StronglySorted (λ a b, dpTimestamp a <= dpTimestamp b) l.

(** "After a sample has been applied, every point of the metric's
    window is at most 30 minutes old", as a property of one application. *)
Definition within_retention (now : Time) (metric : Metric) (c : MetricsCollector)
  : Prop :=
  Forall (λ dp, now - 30 * Minute <= dpTimestamp dp)
    (window (Name metric) (processMetric now metric c)).

(** "The average is 0 if and only if the window has no recent sample",
    as a property of one query. *)
Definition zero_iff_no_recent (now : Time) (name : string) (d : Duration)
    (c : MetricsCollector) : Prop :=
  (GetMetricAverage now name d c == 0)%Q ↔ recent now d (window name c) = [].

(** Two producers of [X]: the first reads the clock at 1000 ns, the
    second at 2000 ns, and the second sends first; both samples are
    drained at 3000 ns. *)
Definition collector_interleaved : MetricsCollector :=
  processMetric 3000 (RecordMetric 1000 "X" 1 "Count")
    (processMetric 3000 (RecordMetric 2000 "X" 1 "Count")
       (NewMetricsCollector "SQSConsumer")).

(** Scenario C of the specification: [X = 10] at 0 s, [X = 20] at 120 s. *)
Definition collector_C : MetricsCollector :=
  processMetric (120 * Second) (RecordMetric (120 * Second) "X" 20 "Count")
    (processMetric 0 (RecordMetric 0 "X" 10 "Count")
       (NewMetricsCollector "SQSConsumer")).

(** ** Reference definitions for the worker's trace *)

Definition is_delete (e : Event) : bool :=
  match e with EDeleteMessage _ _ => true | _ => false end.

Definition is_changeVisibility (e : Event) : bool :=
  match e with EChangeMessageVisibility _ _ _ => true | _ => false end.

Definition is_log (e : Event) : bool :=
  match e with ELog _ => true | _ => false end.

(** A send of a metric whose name starts with [Error_]. *)
Definition is_error_metric (e : Event) : bool :=
  match e with
  | EMetric m => String.prefix "Error_" (Name m)
  | _ => false
  end.

Definition is_metric_named (name : string) (e : Event) : bool :=
  match e with
  | EMetric m => String.eqb (Name m) name
  | _ => false
  end.

Definition is_close (e : Event) : bool :=
  match e with EClose _ => true | _ => false end.

Definition is_removeWorker (e : Event) : bool :=
  match e with ERemoveWorker _ => true | _ => false end.

Definition is_addWorker (e : Event) : bool :=
  match e with EAddWorker _ => true | _ => false end.

(** The deliveries of a batch that the handler accepts. *)
Definition handled (handler : Message -> option string) (batch : list Delivery)
  : list Delivery :=
  List.filter (λ d, match handler (d_msg d) with None => true | Some _ => false end)
    batch.



(** Clients and handlers for concrete runs. *)
Definition client_ok : SQSClient :=
  {| DeleteMessage := λ _ _, None; ChangeMessageVisibility := λ _ _ _, None |}.

Definition client_down : SQSClient :=
  {| DeleteMessage := λ _ _, Some "RequestTimeout";
     ChangeMessageVisibility := λ _ _ _, Some "RequestTimeout" |}.

Definition handler_failing : Message → option string :=
  λ _, Some "handler failed".

Definition message_m : Message :=
  {| MessageId := "m"; ReceiptHandle := "receipt-m"; Body := "" |}.

Definition delivery_m : Delivery :=
  {| d_msg := message_m; d_startTime := 0; d_endTime := 5 * Second |}.

(** ** Reference definitions for the pool *)

Definition pool_inv (c : Consumer) : Prop :=
  MinWorkerCount (c_config c) <= len_workers c <= MaxWorkerCount (c_config c).

(** The invariant of the pool's map: every worker is stored under its
    own identifier, polls the consumer's queue and has its [done]
    channel open. *)
Definition workers_wf (c : Consumer) : Prop :=
  ∀ k w, c_workers c !! k = Some w →
    w_id w = k ∧ w_queueURL w = c_queueURL c ∧ w_done w = false.

(** One pool operation, as the scaler may invoke it at any time: with any
    clock reading, any identifier, and any key [range] may yield. *)
Inductive pool_step (c : Consumer) : Consumer -> Prop :=
| pool_add now workerID :
    pool_step c (addWorker now workerID c).1.2
| pool_remove first :
    range_first (c_workers c) first ->
    pool_step c (removeWorker first c).1.2.

(** The pool states that can be observed once [Start] has returned
    without error on a new consumer, the identifiers it drew being
    pairwise distinct. *)
Inductive observable (config : Config) : Consumer -> Prop :=
| obs_started now uuid c ev :
    Inj (=) (=) uuid ->
    Start now uuid (NewConsumer config) = (None, c, ev) ->
    observable config c
| obs_step c c' :
    observable config c -> pool_step c c' -> observable config c'.

(** The workers a trace starts: the identifiers of its
    [go worker.Start] events. *)
Definition started_by (e : Event) : list string :=
  match e with
  | EGo routine workerID => if String.eqb routine "Start" then [workerID] else []
  | _ => []
  end.

Definition started (ev : list Event) : list string :=
  flat_map started_by ev.

(** A worker of the pool that runs: present in the map, its [done]
    channel open. *)
Definition running (c : Consumer) (workerID : string) : Prop :=
  ∃ w, c_workers c !! workerID = Some w ∧ w_done w = false.

(** Scenario A: bounds min = 2, max = 3, initial = 2.  [Start]
    succeeds with two workers; of two further [addWorker] calls the first
    succeeds and the pool has three workers, the second returns
    [MaxReached] and the pool still has three. *)
Definition scenario_A : Prop :=
  ∀ (now now1 now2 : Time) (uuid : nat → string) (config : Config),
    Inj (=) (=) uuid →
    MinWorkerCount config = 2 →
    MaxWorkerCount config = 3 →
    InitialWorkerCount config = 2 →
    let '(err0, c0, _) := Start now uuid (NewConsumer config) in
    let '(err1, c1, _) := addWorker now1 (uuid 2%nat) c0 in
    let '(err2, c2, _) := addWorker now2 (uuid 3%nat) c1 in
    err0 = None ∧ len_workers c0 = 2 ∧
    err1 = None ∧ len_workers c1 = 3 ∧
    err2 = Some MaxReached ∧ len_workers c2 = 3 ∧ c2 = c1.

(** "When [Start] fails, every worker it has started has been stopped
    before it returns", as a property of one call. *)
Definition stopped_on_failure (now : Time) (uuid : nat → string) (c : Consumer)
  : Prop :=
  let '(err, c', ev) := Start now uuid c in
  is_Some err →
  ∀ workerID, workerID ∈ started ev → EClose workerID ∈ ev ∨ ¬ running c' workerID.

(** ** Reference definitions for the scaler *)

(** The pool operations a trace invokes. *)
Definition calls_addWorker (ev : list Event) : bool := existsb is_addWorker ev.
Definition calls_removeWorker (ev : list Event) : bool := existsb is_removeWorker ev.

(** The three signals a tick reads. *)
Definition queueDepth_at (m : MetricsCollector) : Q :=
  GetMetric MetricQueueDepth m.
Definition processingTime_at (t : Tick) (m : MetricsCollector) : Q :=
  GetMetricAverage (tick_now t) MetricProcessingTime (1 * Minute) m.
Definition utilization_at (t : Tick) (m : MetricsCollector) : Q :=
  GetMetricAverage (tick_now t) MetricWorkerUtilization (1 * Minute) m.

Definition scale_up_holds (t : Tick) (m : MetricsCollector) (s : Scaler) : bool :=
  shouldScaleUp s (queueDepth_at m) (processingTime_at t m) (utilization_at t m).
Definition scale_down_holds (t : Tick) (m : MetricsCollector) (s : Scaler) : bool :=
  shouldScaleDown s (queueDepth_at m) (processingTime_at t m) (utilization_at t m).

(** "[lastScaleEvent] is left unchanged by a tick on which the pool
    operation returns an error", as a property of one tick. *)
Definition unchanged_on_error (t : Tick) (m : MetricsCollector) (c : Consumer)
    (s : Scaler) : Prop :=
  let '(s', _, ev) := evaluateScaling t m c s in
  EAddWorker (Some MaxReached) ∈ ev ∨ ERemoveWorker (Some MinReached) ∈ ev →
  s_lastScaleEvent s' = s_lastScaleEvent s.

(** Scenario B: cooldown 30 s; the scaler scales up at t = 0; the
    scale-down condition holds at t = 5 s and again at t = 31 s, the pool
    being above its minimum and its workers running (stored under their
    identifiers, stop channels open).  Nothing happens at 5 s; at 31 s
    one worker, the one [range] yields first, is stopped and removed,
    and [lastScaleEvent] becomes 31 s. *)
Definition scenario_B : Prop :=
  ∀ (t0 t1 t2 : Tick) (m0 m1 m2 : MetricsCollector) (c : Consumer) (s : Scaler),
    workers_wf c →
    CooldownPeriod (s_config s) = 30 * Second →
    (ScaleDownThreshold (s_config s) <= ScaleUpThreshold (s_config s))%Q →
    tick_now t0 = 0 → scale_up_holds t0 m0 s = true →
    tick_now t1 = 5 * Second → scale_down_holds t1 m1 s = true →
    tick_now t2 = 31 * Second → scale_down_holds t2 m2 s = true →
    0 <= MinWorkerCount (c_config c) →
    MinWorkerCount (c_config c) < len_workers (evaluateScaling t0 m0 c s).1.2 →
    range_first (c_workers (evaluateScaling t0 m0 c s).1.2) (tick_first t2) →
    let '(s1, c1, ev0) := evaluateScaling t0 m0 c s in
    let '(s2, c2, ev1) := evaluateScaling t1 m1 c1 s1 in
    let '(s3, c3, ev2) := evaluateScaling t2 m2 c2 s2 in
    calls_addWorker ev0 = true ∧ s_lastScaleEvent s1 = 0 ∧
    ev1 = [] ∧ c2 = c1 ∧ s_lastScaleEvent s2 = 0 ∧
    ev2 = [ERemoveWorker None; EClose (tick_first t2)] ∧
    len_workers c3 = len_workers c1 - 1 ∧
    s_lastScaleEvent s3 = 31 * Second.

(** Scenario E: queue depth 0, average processing time 1 (ms), average
    utilization 80, scale-up threshold 50.  [addWorker] is invoked, and
    it is the utilization arm that fires, not the queue-depth arm. *)
Definition scenario_E : Prop :=
  ∀ (t : Tick) (m : MetricsCollector) (c : Consumer) (s : Scaler),
    (queueDepth_at m == 0)%Q →
    (processingTime_at t m == 1)%Q →
    (utilization_at t m == 80)%Q →
    (ScaleUpThreshold (s_config s) == 50)%Q →
    calls_addWorker (evaluateScaling t m c s).2 = true ∧
    Qgtb (utilization_at t m) 75 = true ∧
    Qgtb (queueDepth_at m) (ScaleUpThreshold (s_config s)) = false.

(** ** Concrete configurations *)

Definition uuid_seq (i : nat) : string := ("w" ++ pretty i)%string.

(** The configuration that [main] builds. *)
Definition config_main : Config :=
  {| QueueURL := "https://sqs.us-west-2.amazonaws.com/982600293865/sqs-fargate-consumer-eventqueue";
     InitialWorkerCount := 5; MaxWorkerCount := 100; MinWorkerCount := 2;
     ScaleUpThreshold := 50; ScaleDownThreshold := 10;
     CooldownPeriod := 30 * Second; TargetProcessingTime := 30 * Second |}.

Definition with_counts (initial min max : Z) (config : Config) : Config :=
  {| QueueURL := QueueURL config;
     InitialWorkerCount := initial; MaxWorkerCount := max; MinWorkerCount := min;
     ScaleUpThreshold := ScaleUpThreshold config;
     ScaleDownThreshold := ScaleDownThreshold config;
     CooldownPeriod := CooldownPeriod config;
     TargetProcessingTime := TargetProcessingTime config |}.

Definition collector0 : MetricsCollector := NewMetricsCollector "SQSConsumer".

(** A collector that has drained one [QueueDepth] sample. *)
Definition collector_depth (now : Time) (depth : Z) : MetricsCollector :=
  processMetric now (RecordQueueDepth now depth) collector0.

(** A collector that has drained one [ProcessingTime] sample, recorded
    at [now] for a message that took [d]. *)
Definition collector_processing (now : Time) (d : Duration) : MetricsCollector :=
  processMetric now (RecordProcessingTime now d) collector0.

(** The collector of scenario E, one second after start: queue depth 0,
    one message processed in 1 ms, one utilization sample of 80. *)
Definition collector_E : MetricsCollector :=
  processMetric Second (RecordWorkerUtilization Second 80)
    (processMetric Second (RecordProcessingTime Second (1 * Millisecond))
       (collector_depth Second 0)).

Definition started_pool (config : Config) : Consumer :=
  (Start 0 uuid_seq (NewConsumer config)).1.2.

Definition tick_at (now : Time) : Tick :=
  {| tick_now := now; tick_uuid := "w-next"; tick_first := "w0" |}.

(** ** The rest of the package

    The functions below complete the embedding: the publisher of the
    collector, the two reporting loops and [Shutdown] of the consumer,
    the poll loop of the worker and the tick loop of the scaler.  A loop
    that waits on a ticker or on a channel is a function of the list of
    its rounds; the order in which [range] visits a map is an argument,
    a permutation of the map's entries. *)

(** The order in which [range] may visit a map. *)
Definition range_order {A} (m : gmap string A) (order : list (string * A)) : Prop :=
  order ≡ₚ map_to_list m.

(** *** [MetricsCollector.publishMetrics] *)

Record MetricDatum := {
  MetricName : string;
  datumValue : Q;
  datumTimestamp : Time;
  datumUnit : string
}.

Record PutMetricDataInput := {
  Namespace : string;
  MetricData : list MetricDatum
}.

Definition StandardUnitCount : string := "Count".

(** The request [publishMetrics] sends to CloudWatch, [None] when it
    sends none.  The error of the call is logged and has no other
    effect.  The module is built with go 1.22: each iteration of the
    loop has its own [name] and [value], so each datum points to the
    pair of its own iteration. *)
Definition publishMetrics (now : Time) (order : list (string * Q))
    (c : MetricsCollector) : option PutMetricDataInput :=
  let metricData :=
    map (λ nv, {| MetricName := nv.1; datumValue := nv.2;
                  datumTimestamp := now; datumUnit := StandardUnitCount |})
      order in
  if (0 <? length metricData)%nat
  then Some {| Namespace := namespace c; MetricData := metricData |}
  else None.

(** The drain loop of [MetricsCollector.Start]: each metric received from
    the channel is applied at the time it is received. *)
Fixpoint drain (received : list (Time * Metric)) (c : MetricsCollector)
  : MetricsCollector :=
  match received with
  | [] => c
  | (now, metric) :: rest => drain rest (processMetric now metric c)
  end.

(** *** [Consumer.reportMetrics], [Consumer.monitorQueueDepth],
    [Consumer.Shutdown] *)

Definition activeWorkers (order : list (string * Worker)) : Z :=
  fold_left (λ n kw, if w_isProcessing kw.2 then n + 1 else n) order 0.

(** One firing of the ticker in [reportMetrics]. *)
Definition reportMetrics_tick (now : Time) (order : list (string * Worker))
    (c : Consumer) : list Event :=
  let workerCount := len_workers c in
  let active := activeWorkers order in
  EMetric (RecordMetric now MetricWorkerCount (inject_Z workerCount) "Count")
  :: (if 0 <? workerCount
      then [EMetric (RecordWorkerUtilization now
                       (inject_Z active / inject_Z workerCount * 100)%Q)]
      else []).

Definition AttrVisible : string := "ApproximateNumberOfMessages".
Definition AttrNotVisible : string := "ApproximateNumberOfMessagesNotVisible".

(** One firing of the ticker in [monitorQueueDepth].  [attrs] is the
    outcome of [GetQueueAttributes]: an error, or the attribute map;
    [Atoi] is [strconv.Atoi], [None] for a string it rejects. *)
Definition monitorQueueDepth_tick (Atoi : string → option Z) (now : Time)
    (attrs : string + gmap string string) : list Event :=
  match attrs with
  | inl _ => [EMetric (RecordError now "queue_depth_fetch_error")]
  | inr attributes =>
      match attributes !! AttrVisible with
      | Some visibleStr =>
          match Atoi visibleStr with
          | Some visible => [EMetric (RecordQueueDepth now visible)]
          | None => [EMetric (RecordError now "queue_depth_parse_error")]
          end
      | None => []
      end
      ++
      match attributes !! AttrNotVisible with
      | Some notVisibleStr =>
          match Atoi notVisibleStr with
          | Some notVisible =>
              [EMetric (RecordMetric now "InFlightMessages" (inject_Z notVisible) "Count")]
          | None => [EMetric (RecordError now "in_flight_messages_parse_error")]
          end
      | None => []
      end
  end.

(** [close(w.done)] panics on a channel that is closed already: [None]. *)
Definition close_done (w : Worker) : option Worker :=
  if w_done w then None else Some (Stop w).

(** The loop of [Shutdown] over the workers in the order of [range];
    [None] when a [close] panics. *)
Fixpoint Shutdown_loop (order : list (string * Worker)) (ws : gmap string Worker)
  : option (gmap string Worker * list Event) :=
  match order with
  | [] => Some (ws, [])
  | (k, worker) :: rest =>
      match close_done worker with
      | Some worker' =>
          match Shutdown_loop rest (<[k := worker']> ws) with
          | Some (ws', ev) => Some (ws', EClose (w_id worker) :: ev)
          | None => None
          end
      | None => None
      end
  end.

Definition Shutdown (order : list (string * Worker)) (c : Consumer)
  : option (Consumer * list Event) :=
  match Shutdown_loop order (c_workers c) with
  | Some (ws', ev) => Some (set_workers ws' c, ev)
  | None => None
  end.

(** *** [Worker.Start] *)

Inductive PollResult :=
| PollError (err : string)
| PollMessages (messages : list Delivery).

(** One turn of the loop of [Worker.Start]: whether [ctx.Done()] or
    [w.done] is ready when the [select] runs, the reading of the clock,
    and the outcome of [pollMessages]. *)
Record Round := {
  r_stopped : bool;
  r_now : Time;
  r_poll : PollResult
}.

Fixpoint Worker_Start (handler : Message → option string) (client : SQSClient)
    (rounds : list Round) (w : Worker) : list Event * Worker :=
  match rounds with
  | [] => ([], w)
  | r :: rest =>
      if r_stopped r then ([], w)
      else
        match r_poll r with
        | PollError _ =>
            let '(ev', w') := Worker_Start handler client rest w in
            ([EMetric (RecordError (r_now r) "poll_error"); ESleep (1 * Second)]
               ++ ev', w')
        | PollMessages messages =>
            let '(ev, w1) := handleBatch handler client messages w in
            let '(ev', w2) := Worker_Start handler client rest w1 in
            (ev ++ ev', w2)
        end
  end.

(** The rounds that run: those before the first one that finds a stop
    signal. *)
Fixpoint live (rounds : list Round) : list Round :=
  match rounds with
  | [] => []
  | r :: rest => if r_stopped r then [] else r :: live rest
  end.

Definition polled (r : Round) : list Delivery :=
  match r_poll r with
  | PollError _ => []
  | PollMessages messages => messages
  end.

Definition poll_failed (r : Round) : bool :=
  match r_poll r with
  | PollError _ => true
  | PollMessages _ => false
  end.

(** *** [Scaler.Start] *)

(** The loop of [Scaler.Start] over the ticks that fire before
    [ctx.Done()], each with the collector's state at that tick; the
    result lists, tick by tick, the time and the trace of the tick. *)
Fixpoint Scaler_Start (ticks : list (Tick * MetricsCollector)) (c : Consumer)
    (s : Scaler) : list (Time * list Event) * Consumer * Scaler :=
  match ticks with
  | [] => ([], c, s)
  | (t, m) :: rest =>
      let '(s1, c1, ev) := evaluateScaling t m c s in
      let '(log, c2, s2) := Scaler_Start rest c1 s1 in
      ((tick_now t, ev) :: log, c2, s2)
  end.

(** A tick of the log that invoked a pool operation. *)
Definition scaled (entry : Time * list Event) : bool :=
  calls_addWorker entry.2 || calls_removeWorker entry.2.

(** Tick times in non-decreasing order. *)
Definition ticks_ordered (ticks : list (Tick * MetricsCollector)) : Prop :=
  StronglySorted (λ a b, tick_now a.1 <= tick_now b.1) ticks.

(** *** Reference definitions *)

(** The collector states the drain loop reaches. *)
Definition drained (c : MetricsCollector) : Prop :=
  ∃ received, c = drain received (NewMetricsCollector (namespace c)).

Definition is_processing_sample (e : Event) : bool :=
  is_metric_named MetricProcessingTime e.

(** The metrics a trace sends on the collector's channel, in order. *)
Definition sent (ev : list Event) : list Metric :=
  flat_map (λ e, match e with EMetric m => [m] | _ => [] end) ev.

(** The collector after it has drained, at [now], what a trace sent. *)
Definition drain_sent (now : Time) (ev : list Event) (c : MetricsCollector)
  : MetricsCollector :=
  drain (map (λ m, (now, m)) (sent ev)) c.

(** The two goroutines [Consumer.Start] launches after the workers. *)
Definition reporters : list Event :=
  [EGo "reportMetrics" ""; EGo "monitorQueueDepth" ""].

(** * Lemmas on the embedding *)

(** ** Comparisons *)

Lemma Qgtb_lt x y : Qgtb x y = true <-> (y < x)%Q.
Proof.
  unfold Qgtb. rewrite negb_true_iff. split.
  - intros H. apply Qnot_le_lt. intros Hle.
    apply Qle_bool_iff in Hle. congruence.
  - intros H. destruct (Qle_bool x y) eqn:E; [|done].
    apply Qle_bool_iff in E. exfalso. eapply Qlt_not_le; eauto.
Qed.

Lemma Qltb_lt x y : Qltb x y = true <-> (x < y)%Q.
Proof. unfold Qltb. apply (Qgtb_lt y x). Qed.

Lemma After_lt t u : After t u = true <-> u < t.
Proof. unfold After. apply Z.ltb_lt. Qed.

Lemma After_ge t u : After t u = false <-> t <= u.
Proof. unfold After. apply Z.ltb_ge. Qed.

(** ** Metrics collector *)

Section Window.

Variable now : Time.

Lemma average_loop_acc cutoff l acc :
  (fst (fold_left (average_step cutoff) l acc)
     == fst acc + Qsum (map dpValue (newer cutoff l)))%Q
  ∧ snd (fold_left (average_step cutoff) l acc)
     = snd acc + Z.of_nat (length (newer cutoff l)).
Proof.
  revert acc. unfold newer. induction l as [|dp l IH]; intros acc; simpl.
  - split; [ring | lia].
  - destruct (IH (average_step cutoff acc dp)) as [IH1 IH2].
    rewrite IH1, IH2. unfold average_step.
    rewrite filter_cons. destruct (After (dpTimestamp dp) cutoff) eqn:E.
    + apply After_lt in E. rewrite decide_True by done. simpl.
      split; [ring | lia].
    + apply After_ge in E. rewrite decide_False by lia. done.
Qed.

Lemma GetMetricAverage_unfold name d c :
  GetMetricAverage now name d c =
    let l := window name c in
    let acc := average_loop (now - d) l in
    if (length l =? 0)%nat then 0%Q
    else if snd acc =? 0 then 0%Q
    else (fst acc / inject_Z (snd acc))%Q.
Proof.
  unfold GetMetricAverage, window. simpl.
  destruct (length _ =? 0)%nat; [done|].
  replace (now + - d) with (now - d) by lia.
  by destruct (average_loop (now - d) _).
Qed.

Lemma GetMetricAverage_no_recent name d c :
  recent now d (window name c) = [] → GetMetricAverage now name d c = 0%Q.
Proof.
  intros H. rewrite GetMetricAverage_unfold. simpl.
  destruct (length _ =? 0)%nat; [done|].
  destruct (average_loop_acc (now - d) (window name c) (0%Q, 0)) as [_ Hc].
  unfold average_loop, recent in *. rewrite Hc, H. done.
Qed.

Lemma GetMetricAverage_recent name d c :
  recent now d (window name c) ≠ [] →
  (GetMetricAverage now name d c == mean (recent now d (window name c)))%Q.
Proof.
  intros H. rewrite GetMetricAverage_unfold. simpl.
  destruct (length (window name c) =? 0)%nat eqn:El.
  { apply Nat.eqb_eq in El. destruct (window name c); [|done].
    by destruct H. }
  destruct (average_loop_acc (now - d) (window name c) (0%Q, 0)) as [Hs Hc].
  unfold average_loop, recent, mean in *. simpl in Hs, Hc.
  rewrite Hc.
  destruct (newer _ (window name c)) as [|dp r] eqn:Ef; [done|].
  destruct (Z.of_nat (length (dp :: r)) =? 0) eqn:E0.
  { apply Z.eqb_eq in E0. simpl in E0. lia. }
  apply Qdiv_comp; [|done]. etransitivity; [exact Hs | ring].
Qed.

(** The search loop, when some point is fresh: it stops on the first
    fresh point, and everything before it is stale. *)
Lemma keepIndex_loop_found l i :
  Exists (fresh now) l →
  ∃ old dp rest,
    l = old ++ dp :: rest ∧ Forall (stale now) old ∧ fresh now dp ∧
    keepIndex_loop (now + - (30 * Minute)) i l = (i + length old)%nat.
Proof.
  revert i. induction l as [|dp l IH]; intros i Hex.
  - by apply Exists_nil in Hex.
  - simpl. destruct (After (dpTimestamp dp) _) eqn:E.
    + apply After_lt in E. exists [], dp, l. simpl.
      repeat split; [constructor | unfold fresh; lia | lia].
    + apply After_ge in E.
      apply Exists_cons in Hex as [Hex|Hex]; [unfold fresh in Hex; lia|].
      destruct (IH (S i) Hex) as (old & dp' & rest & -> & Hold & Hdp & Hk).
      exists (dp :: old), dp', rest. simpl.
      repeat split; [constructor; [unfold stale; lia | done] | done | lia].
Qed.

Lemma window_cleanup name c :
  window name (cleanupOldDataPoints now name c) =
    let k := keepIndex_loop (now + - (30 * Minute)) 0 (window name c) in
    if (0 <? k)%nat then drop k (window name c) else window name c.
Proof.
  unfold cleanupOldDataPoints, window. simpl.
  destruct (0 <? _)%nat; [|done]. simpl. by rewrite lookup_insert_eq.
Qed.

Lemma window_processMetric metric c :
  window (Name metric) (processMetric now metric c) =
    let l := window (Name metric) c ++ [point_of metric] in
    let k := keepIndex_loop (now + - (30 * Minute)) 0 l in
    if (0 <? k)%nat then drop k l else l.
Proof.
  unfold processMetric. rewrite window_cleanup.
  assert (window (Name metric)
            {| metricValues := <[Name metric:=Value metric]> (metricValues c);
               metricWindow :=
                 <[Name metric :=
                     default []
                       (match metricWindow c !! Name metric with
                        | Some _ => metricWindow c
                        | None => <[Name metric:=[]]> (metricWindow c)
                        end !! Name metric) ++
                     [{| dpValue := Value metric; dpTimestamp := Timestamp metric |}]]>
                   (match metricWindow c !! Name metric with
                    | Some _ => metricWindow c
                    | None => <[Name metric:=[]]> (metricWindow c)
                    end);
               namespace := namespace c |}
          = window (Name metric) c ++ [point_of metric]) as ->; [|done].
  unfold window at 1. simpl. rewrite lookup_insert_eq. simpl.
  unfold window, point_of.
  destruct (metricWindow c !! Name metric) eqn:E.
  - by rewrite E.
  - by rewrite lookup_insert_eq.
Qed.

End Window.

(** ** Consumer *)

Section Pool.

Implicit Types (c : Consumer) (now : Time).

Lemma addWorker_full now workerID c :
  MaxWorkerCount (c_config c) <= len_workers c →
  addWorker now workerID c = (Some MaxReached, c, []).
Proof.
  intros H. unfold addWorker.
  destruct (_ <=? _) eqn:E; [done|]. apply Z.leb_gt in E. lia.
Qed.

Lemma addWorker_room now workerID c :
  len_workers c < MaxWorkerCount (c_config c) →
  addWorker now workerID c =
    (None,
     set_workers (<[workerID := NewWorker now workerID (c_queueURL c)]> (c_workers c)) c,
     [EGo "trackUtilization" workerID; EGo "Start" workerID]).
Proof.
  intros H. unfold addWorker.
  destruct (_ <=? _) eqn:E; [|done]. apply Z.leb_le in E. lia.
Qed.

Lemma addWorker_config now workerID c :
  c_config (addWorker now workerID c).1.2 = c_config c.
Proof. unfold addWorker. by destruct (_ <=? _). Qed.

Lemma removeWorker_config first c :
  c_config (removeWorker first c).1.2 = c_config c.
Proof.
  unfold removeWorker. destruct (_ <=? _); [done|].
  by destruct (c_workers c !! first).
Qed.

Lemma removeWorker_floor first c :
  len_workers c <= MinWorkerCount (c_config c) →
  removeWorker first c = (Some MinReached, c, []).
Proof.
  intros H. unfold removeWorker.
  destruct (_ <=? _) eqn:E; [done|]. apply Z.leb_gt in E. lia.
Qed.

Lemma removeWorker_room first c worker :
  MinWorkerCount (c_config c) < len_workers c →
  c_workers c !! first = Some worker →
  removeWorker first c =
    (None, set_workers (delete first (c_workers c)) c, [EClose (w_id worker)]).
Proof.
  intros H Hw. unfold removeWorker.
  destruct (_ <=? _) eqn:E; [apply Z.leb_le in E; lia|]. by rewrite Hw.
Qed.

Lemma len_insert_fresh (ws : gmap string Worker) k w c :
  ws = c_workers c → ws !! k = None →
  len_workers (set_workers (<[k := w]> ws) c) = len_workers c + 1.
Proof.
  intros -> H. unfold len_workers. simpl.
  rewrite map_size_insert_None by done. lia.
Qed.

Lemma len_insert_bounds k w c :
  len_workers c <= len_workers (set_workers (<[k := w]> (c_workers c)) c)
    <= len_workers c + 1.
Proof.
  unfold len_workers. simpl. rewrite map_size_insert.
  destruct (c_workers c !! k); simpl; lia.
Qed.

Lemma len_delete k w c :
  c_workers c !! k = Some w →
  len_workers (set_workers (delete k (c_workers c)) c) = len_workers c - 1.
Proof.
  intros H. unfold len_workers. simpl.
  rewrite map_size_delete_Some by eauto.
  assert (size (c_workers c) ≠ 0%nat).
  { apply map_size_non_empty_iff. intros He. by rewrite He in H. }
  lia.
Qed.

(** Both operations keep the pool within its bounds. *)
Lemma pool_step_inv c c' : pool_inv c → pool_step c c' → pool_inv c'.
Proof.
  unfold pool_inv. intros Hinv [now workerID | first Hfirst].
  - rewrite addWorker_config.
    destruct (Z_lt_le_dec (len_workers c) (MaxWorkerCount (c_config c))) as [Hlt|Hge].
    + rewrite addWorker_room by done. simpl.
      pose proof (len_insert_bounds workerID
                    (NewWorker now workerID (c_queueURL c)) c). lia.
    + by rewrite addWorker_full.
  - rewrite removeWorker_config.
    destruct (Z_lt_le_dec (MinWorkerCount (c_config c)) (len_workers c)) as [Hlt|Hge].
    + destruct (c_workers c !! first) as [w|] eqn:Hw.
      * rewrite (removeWorker_room _ _ w) by done. simpl.
        rewrite (len_delete _ w) by done. lia.
      * unfold removeWorker. rewrite Hw.
        by destruct (_ <=? _).
    + by rewrite removeWorker_floor.
Qed.

(** The loop of [Start] on a pool with room for [n] more workers, the
    identifiers drawn being new to the pool and pairwise distinct. *)
Lemma Start_loop_ok now uuid n : ∀ i c,
  Inj (=) (=) uuid →
  (∀ j, (i <= j)%nat → c_workers c !! uuid j = None) →
  len_workers c + Z.of_nat n <= MaxWorkerCount (c_config c) →
  ∃ c' ev,
    Start_loop now uuid i n c = (None, c', ev) ∧
    c_config c' = c_config c ∧
    len_workers c' = len_workers c + Z.of_nat n ∧
    (∀ j, (i + n <= j)%nat → c_workers c' !! uuid j = None).
Proof.
  induction n as [|n IH]; intros i c Hinj Hnew Hroom.
  - exists c, []. simpl. repeat split; [lia|].
    intros j Hj. apply Hnew. lia.
  - simpl. rewrite addWorker_room by lia.
    set (c1 := set_workers _ c).
    destruct (IH (S i) c1) as (c' & ev & Hrun & Hcfg & Hlen & Hnew'); [done|..].
    + intros j Hj. subst c1. simpl. rewrite lookup_insert_ne.
      * apply Hnew. lia.
      * intros Heq. apply Hinj in Heq. lia.
    + subst c1. rewrite (len_insert_fresh (c_workers c)); [simpl; lia|done|].
      apply Hnew. lia.
    + rewrite Hrun. eexists _, _. split; [done|].
      subst c1. rewrite (len_insert_fresh (c_workers c)) in Hlen;
        [|done|apply Hnew; lia].
      repeat split; [done | lia |].
      intros j Hj. apply Hnew'. lia.
Qed.

Lemma Start_ok now uuid config :
  Inj (=) (=) uuid →
  0 <= InitialWorkerCount config <= MaxWorkerCount config →
  ∃ c ev,
    Start now uuid (NewConsumer config) = (None, c, ev) ∧
    c_config c = config ∧
    len_workers c = InitialWorkerCount config ∧
    (∀ j, (Z.to_nat (InitialWorkerCount config) <= j)%nat →
          c_workers c !! uuid j = None).
Proof.
  intros Hinj Hcfg. unfold Start. simpl.
  destruct (Start_loop_ok now uuid (Z.to_nat (InitialWorkerCount config)) 0
              (NewConsumer config))
    as (c & ev & Hrun & Hc & Hlen & Hnew); [done|done|..].
  { unfold len_workers. simpl. rewrite map_size_empty. lia. }
  rewrite Hrun. eexists _, _. split; [done|].
  unfold len_workers in *. simpl in *. rewrite map_size_empty in Hlen.
  repeat split; [done | lia | done].
Qed.

Lemma Start_loop_err now uuid n : ∀ i c err c' ev,
  Start_loop now uuid i n c = (Some err, c', ev) →
  err = ("failed to start initial workers: " ++ MaxReached)%string.
Proof.
  induction n as [|n IH]; intros i c err c' ev; simpl; [done|].
  unfold addWorker. destruct (_ <=? _).
  - by intros [= <- _ _].
  - destruct (Start_loop _ _ _ _ _) as [[r c''] ev'] eqn:E.
    intros [= -> -> _]. by eapply IH.
Qed.

End Pool.

Section Startup.

Implicit Types (c : Consumer) (now : Time).

Lemma observable_inv config c :
  0 <= InitialWorkerCount config →
  MinWorkerCount config <= InitialWorkerCount config <= MaxWorkerCount config →
  observable config c → c_config c = config ∧ pool_inv c.
Proof.
  intros H0 Hcfg Hobs. induction Hobs as [now uuid c ev Hinj Hstart | c c' _ IH Hstep].
  - destruct (Start_ok now uuid config Hinj) as (c2 & ev2 & Hs & Hc & Hlen & _); [lia|].
    rewrite Hstart in Hs. injection Hs as <- <-.
    split; [done|]. unfold pool_inv. rewrite Hc, Hlen. lia.
  - destruct IH as [IHc IHinv]. split.
    + destruct Hstep; [by rewrite addWorker_config | by rewrite removeWorker_config].
    + by eapply pool_step_inv.
Qed.

Lemma addWorker_running now workerID c err c' ev :
  addWorker now workerID c = (err, c', ev) →
  List.filter is_close ev = [] ∧
  (∀ k, running c k → running c' k) ∧
  (∀ k, k ∈ started ev → running c' k).
Proof.
  unfold addWorker. destruct (_ <=? _); intros [= <- <- <-].
  - repeat split; [done|]. intros k Hk. simpl in Hk. by apply elem_of_nil in Hk.
  - repeat split.
    + intros k (w & Hw & Hd). unfold running. simpl.
      destruct (decide (workerID = k)) as [->|Hne].
      * rewrite lookup_insert_eq. eauto.
      * rewrite lookup_insert_ne by done. eauto.
    + intros k Hk. simpl in Hk. apply list_elem_of_singleton in Hk as ->.
      unfold running. simpl. rewrite lookup_insert_eq. eauto.
Qed.

Lemma filter_close_app ev ev' :
  List.filter is_close ev = [] → List.filter is_close ev' = [] →
  List.filter is_close (ev ++ ev') = [].
Proof. intros H H'. by rewrite List.filter_app, H, H'. Qed.

Lemma Start_loop_running now uuid n : ∀ i c err c' ev,
  Start_loop now uuid i n c = (err, c', ev) →
  List.filter is_close ev = [] ∧
  (∀ k, running c k → running c' k) ∧
  (∀ k, k ∈ started ev → running c' k).
Proof.
  induction n as [|n IH]; intros i c err c' ev; simpl.
  - intros [= <- <- <-]. repeat split; [done|].
    intros k Hk. by apply elem_of_nil in Hk.
  - destruct (addWorker now (uuid i) c) as [[r1 c1] ev1] eqn:E1.
    destruct (addWorker_running _ _ _ _ _ _ E1) as (Hc1 & Hk1 & Hs1).
    destruct r1 as [e|].
    + intros [= <- <- <-]. done.
    + destruct (Start_loop now uuid (S i) n c1) as [[r2 c2] ev2] eqn:E2.
      destruct (IH _ _ _ _ _ E2) as (Hc2 & Hk2 & Hs2).
      intros [= <- <- <-]. repeat split.
      * by apply filter_close_app.
      * auto.
      * intros k Hk. unfold started in Hk. rewrite flat_map_app in Hk.
        apply elem_of_app in Hk as [Hk|Hk]; auto.
Qed.

(** A pool without room for all [n] workers: the loop fills the pool
    and then fails. *)
Lemma Start_loop_fail now uuid n : ∀ i c,
  Inj (=) (=) uuid →
  (∀ j, (i <= j)%nat → c_workers c !! uuid j = None) →
  len_workers c <= MaxWorkerCount (c_config c) →
  MaxWorkerCount (c_config c) < len_workers c + Z.of_nat n →
  ∃ c' ev,
    Start_loop now uuid i n c =
      (Some ("failed to start initial workers: " ++ MaxReached)%string, c', ev) ∧
    len_workers c' = MaxWorkerCount (c_config c) ∧
    length (started ev) = Z.to_nat (MaxWorkerCount (c_config c) - len_workers c).
Proof.
  induction n as [|n IH]; intros i c Hinj Hnew Hle Hlt; [lia|].
  simpl. destruct (Z_lt_le_dec (len_workers c) (MaxWorkerCount (c_config c))) as [Hroom|Hfull].
  - rewrite addWorker_room by done.
    set (c1 := set_workers _ c).
    assert (len_workers c1 = len_workers c + 1) as Hlen1.
    { subst c1. apply len_insert_fresh; [done|]. apply Hnew. lia. }
    destruct (IH (S i) c1) as (c' & ev & Hrun & Hlen & Hst); [done|..].
    + intros j Hj. subst c1. simpl. rewrite lookup_insert_ne.
      * apply Hnew. lia.
      * intros Heq. apply Hinj in Heq. lia.
    + simpl. lia.
    + simpl. lia.
    + rewrite Hrun. eexists _, _. split; [done|]. simpl in *.
      split; [done|]. rewrite Hst, Hlen1.
      replace (uuid i =? "Start")%string with (String.eqb (uuid i) "Start") by done.
      simpl. lia.
  - rewrite addWorker_full by done. eexists _, _. split; [done|].
    split; [lia|]. simpl. lia.
Qed.

End Startup.

(** ** Scaler *)

Section Ticks.

Variables (t : Tick) (m : MetricsCollector) (c : Consumer) (s : Scaler).

Let now := tick_now t.
Let queueDepth := GetMetric MetricQueueDepth m.
Let processingTime := GetMetricAverage now MetricProcessingTime (1 * Minute) m.
Let workerUtilization := GetMetricAverage now MetricWorkerUtilization (1 * Minute) m.

Lemma evaluateScaling_up :
  shouldScaleUp s queueDepth processingTime workerUtilization = true →
  evaluateScaling t m c s =
    (set_lastScaleEvent now s,
     (addWorker now (tick_uuid t) c).1.2,
     [EAddWorker (addWorker now (tick_uuid t) c).1.1]
       ++ (addWorker now (tick_uuid t) c).2
       ++ logErr "Failed to scale up: " (addWorker now (tick_uuid t) c).1.1).
Proof.
  intros H. unfold evaluateScaling.
  fold now queueDepth processingTime workerUtilization. rewrite H.
  by destruct (addWorker _ _ _) as [[??]?].
Qed.

Lemma evaluateScaling_down :
  shouldScaleUp s queueDepth processingTime workerUtilization = false →
  shouldScaleDown s queueDepth processingTime workerUtilization = true →
  CooldownPeriod (s_config s) < now - s_lastScaleEvent s →
  evaluateScaling t m c s =
    (set_lastScaleEvent now s,
     (removeWorker (tick_first t) c).1.2,
     [ERemoveWorker (removeWorker (tick_first t) c).1.1]
       ++ (removeWorker (tick_first t) c).2
       ++ logErr "Failed to scale down: " (removeWorker (tick_first t) c).1.1).
Proof.
  intros Hup Hdown Hcool. unfold evaluateScaling.
  fold now queueDepth processingTime workerUtilization. rewrite Hup, Hdown.
  unfold Since. destruct (_ <? _) eqn:E; [|apply Z.ltb_ge in E; lia].
  by destruct (removeWorker _ _) as [[??]?].
Qed.

Lemma evaluateScaling_cooling :
  shouldScaleUp s queueDepth processingTime workerUtilization = false →
  now - s_lastScaleEvent s <= CooldownPeriod (s_config s) →
  evaluateScaling t m c s = (s, c, []).
Proof.
  intros Hup Hcool. unfold evaluateScaling.
  fold now queueDepth processingTime workerUtilization. rewrite Hup.
  unfold Since. destruct (_ <? _) eqn:E; [apply Z.ltb_lt in E; lia|].
  by destruct (shouldScaleDown _ _ _ _).
Qed.

Lemma evaluateScaling_idle :
  shouldScaleUp s queueDepth processingTime workerUtilization = false →
  shouldScaleDown s queueDepth processingTime workerUtilization = false →
  evaluateScaling t m c s = (s, c, []).
Proof.
  intros Hup Hdown. unfold evaluateScaling.
  fold now queueDepth processingTime workerUtilization. by rewrite Hup, Hdown.
Qed.

End Ticks.

Lemma shouldScaleUp_iff s queueDepth processingTime utilization :
  shouldScaleUp s queueDepth processingTime utilization = true ↔
  (ScaleUpThreshold (s_config s) < queueDepth)%Q
  ∨ (75 < utilization)%Q
  ∨ (Seconds (TargetProcessingTime (s_config s)) < processingTime)%Q.
Proof.
  unfold shouldScaleUp. rewrite !orb_true_iff, !Qgtb_lt. tauto.
Qed.

Lemma shouldScaleDown_iff s queueDepth processingTime utilization :
  shouldScaleDown s queueDepth processingTime utilization = true ↔
  (queueDepth < ScaleDownThreshold (s_config s))%Q
  ∧ (utilization < 40)%Q
  ∧ (processingTime < Seconds (TargetProcessingTime (s_config s)))%Q.
Proof.
  unfold shouldScaleDown. rewrite !andb_true_iff, !Qltb_lt. tauto.
Qed.

(** With the thresholds in their intended order the two predicates
    exclude each other. *)
Lemma shouldScaleDown_not_up s queueDepth processingTime utilization :
  (ScaleDownThreshold (s_config s) <= ScaleUpThreshold (s_config s))%Q →
  shouldScaleDown s queueDepth processingTime utilization = true →
  shouldScaleUp s queueDepth processingTime utilization = false.
Proof.
  intros Hord Hdown. apply shouldScaleDown_iff in Hdown as (Hq & Hu & Hp).
  apply not_true_is_false. intros Hup.
  apply shouldScaleUp_iff in Hup as [H|[H|H]].
  - apply (Qlt_irrefl queueDepth).
    eapply Qlt_trans; [exact Hq|]. eapply Qle_lt_trans; [exact Hord | exact H].
  - apply (Qlt_irrefl utilization).
    eapply Qlt_trans; [exact Hu|]. eapply Qlt_trans; [|exact H]. reflexivity.
  - apply (Qlt_irrefl processingTime). eapply Qlt_trans; eauto.
Qed.

(** The traces of the pool operations hold no call markers, and only
    [removeWorker] closes a channel. *)
Lemma addWorker_trace now workerID c :
  existsb is_addWorker (addWorker now workerID c).2 = false ∧
  existsb is_removeWorker (addWorker now workerID c).2 = false ∧
  List.filter is_close (addWorker now workerID c).2 = [].
Proof. unfold addWorker. by destruct (_ <=? _). Qed.

Lemma removeWorker_trace first c :
  existsb is_addWorker (removeWorker first c).2 = false ∧
  existsb is_removeWorker (removeWorker first c).2 = false.
Proof.
  unfold removeWorker. destruct (_ <=? _); [done|].
  by destruct (c_workers c !! first).
Qed.

Lemma logErr_trace pre err :
  existsb is_addWorker (logErr pre err) = false ∧
  existsb is_removeWorker (logErr pre err) = false ∧
  List.filter is_close (logErr pre err) = [].
Proof. by destruct err. Qed.

Lemma evaluateScaling_calls t m c s :
  calls_addWorker (evaluateScaling t m c s).2 = scale_up_holds t m s ∧
  calls_removeWorker (evaluateScaling t m c s).2 =
    negb (scale_up_holds t m s) && scale_down_holds t m s
    && (CooldownPeriod (s_config s) <? tick_now t - s_lastScaleEvent s).
Proof.
  unfold calls_addWorker, calls_removeWorker, scale_up_holds, scale_down_holds,
    queueDepth_at, processingTime_at, utilization_at.
  destruct (shouldScaleUp _ _ _ _) eqn:Hup.
  - rewrite evaluateScaling_up by done. simpl.
    rewrite !existsb_app.
    destruct (addWorker_trace (tick_now t) (tick_uuid t) c) as (_ & -> & _).
    by destruct (logErr_trace "Failed to scale up: "
                   (addWorker (tick_now t) (tick_uuid t) c).1.1) as (_ & -> & _).
  - destruct (shouldScaleDown _ _ _ _) eqn:Hdown; simpl.
    + destruct (_ <? _) eqn:Hcool.
      * apply Z.ltb_lt in Hcool. rewrite evaluateScaling_down by done. simpl.
        rewrite !existsb_app.
        destruct (removeWorker_trace (tick_first t) c) as (-> & _).
        by destruct (logErr_trace "Failed to scale down: "
                       (removeWorker (tick_first t) c).1.1) as (-> & _ & _).
      * apply Z.ltb_ge in Hcool. by rewrite evaluateScaling_cooling.
    + by rewrite evaluateScaling_idle.
Qed.

Lemma evaluateScaling_lastScaleEvent t m c s :
  s_lastScaleEvent (evaluateScaling t m c s).1.1 =
    if calls_addWorker (evaluateScaling t m c s).2
       || calls_removeWorker (evaluateScaling t m c s).2
    then tick_now t else s_lastScaleEvent s.
Proof.
  destruct (evaluateScaling_calls t m c s) as [-> ->].
  unfold scale_up_holds, scale_down_holds,
    queueDepth_at, processingTime_at, utilization_at.
  destruct (shouldScaleUp _ _ _ _) eqn:Hup.
  - by rewrite evaluateScaling_up.
  - destruct (shouldScaleDown _ _ _ _) eqn:Hdown; simpl.
    + destruct (_ <? _) eqn:Hcool.
      * apply Z.ltb_lt in Hcool. by rewrite evaluateScaling_down.
      * apply Z.ltb_ge in Hcool. by rewrite evaluateScaling_cooling.
    + by rewrite evaluateScaling_idle.
Qed.

Lemma calls_addWorker_elem ev :
  calls_addWorker ev = true ↔ ∃ err, EAddWorker err ∈ ev.
Proof.
  unfold calls_addWorker. rewrite existsb_exists. split.
  - intros (e & Hin & He). destruct e; try done.
    exists err. by apply list_elem_of_In.
  - intros (err & Hin). exists (EAddWorker err).
    split; [by apply list_elem_of_In | done].
Qed.

Lemma calls_removeWorker_elem ev :
  calls_removeWorker ev = true ↔ ∃ err, ERemoveWorker err ∈ ev.
Proof.
  unfold calls_removeWorker. rewrite existsb_exists. split.
  - intros (e & Hin & He). destruct e; try done.
    exists err. by apply list_elem_of_In.
  - intros (err & Hin). exists (ERemoveWorker err).
    split; [by apply list_elem_of_In | done].
Qed.

Lemma uuid_seq_inj : Inj (=) (=) uuid_seq.
Proof.
  intros i j H. unfold uuid_seq in H. injection H as H.
  by apply (inj pretty).
Qed.

(** * Properties of the specification *)

(** C1 (as stated): a tick on which [addWorker] returns [MaxReached]
    leaves [lastScaleEvent] unchanged.  False on a full pool with a deep
    queue: the scaler created at time 0 ticks at 5 s, [addWorker] fails,
    and [lastScaleEvent] moves from 0 to 5 s. *)
Lemma lastScaleEvent_moves_on_MaxReached :
  ¬ unchanged_on_error (tick_at (5 * Second)) (collector_depth (4 * Second) 100)
      (started_pool (with_counts 3 2 3 config_main))
      (NewScaler 0 config_main).
Proof.
  unfold unchanged_on_error.
  destruct (evaluateScaling _ _ _ _) as [[s' c'] ev] eqn:E.
  vm_compute in E. injection E as <- <- <-.
  intros H. assert (5 * Second = 0) as Habs; [|done].
  apply H. left. apply list_elem_of_here.
Qed.

(** C1 (amended): [lastScaleEvent] is set to the tick's time on every
    tick that invokes [addWorker] or [removeWorker], whatever the
    operation returns (success, [MaxReached] or [MinReached]); a tick
    that invokes neither leaves it unchanged. *)
Theorem lastScaleEvent_set_on_every_invocation t m c s :
  let '(s', _, ev) := evaluateScaling t m c s in
  (∀ err, EAddWorker err ∈ ev ∨ ERemoveWorker err ∈ ev →
          s_lastScaleEvent s' = tick_now t) ∧
  (calls_addWorker ev = false → calls_removeWorker ev = false →
   s_lastScaleEvent s' = s_lastScaleEvent s).
Proof.
  pose proof (evaluateScaling_lastScaleEvent t m c s) as H.
  destruct (evaluateScaling t m c s) as [[s' c'] ev]. simpl in H. split.
  - intros err Hcall. rewrite H.
    assert (calls_addWorker ev || calls_removeWorker ev = true) as ->; [|done].
    apply orb_true_iff. destruct Hcall as [Hc|Hc].
    + left. apply calls_addWorker_elem. eauto.
    + right. apply calls_removeWorker_elem. eauto.
  - intros Ha Hr. by rewrite H, Ha, Hr.
Qed.

Lemma lastScaleEvent_set_on_every_invocation_witness :
  let '(s', _, ev) :=
    evaluateScaling (tick_at (5 * Second)) (collector_depth (4 * Second) 100)
      (started_pool (with_counts 3 2 3 config_main)) (NewScaler 0 config_main) in
  EAddWorker (Some MaxReached) ∈ ev ∧ s_lastScaleEvent s' = 5 * Second.
Proof.
  pose proof (lastScaleEvent_set_on_every_invocation
                (tick_at (5 * Second)) (collector_depth (4 * Second) 100)
                (started_pool (with_counts 3 2 3 config_main))
                (NewScaler 0 config_main)) as H.
  destruct (evaluateScaling _ _ _ _) as [[s' c'] ev] eqn:E.
  assert (EAddWorker (Some MaxReached) ∈ ev) as Hin.
  { vm_compute in E. injection E as <- <- <-. apply list_elem_of_here. }
  split; [exact Hin|].
  destruct H as [H _]. apply (H (Some MaxReached)). by left.
Defined.

Lemma addWorker_wf now workerID c :
  workers_wf c → workers_wf (addWorker now workerID c).1.2 ∧
  c_queueURL (addWorker now workerID c).1.2 = c_queueURL c.
Proof.
  intros Hwf. unfold addWorker. destruct (_ <=? _); [done|]. simpl.
  split; [|done]. intros k w. simpl.
  destruct (decide (workerID = k)) as [->|Hne].
  - rewrite lookup_insert_eq. by intros [= <-].
  - rewrite lookup_insert_ne by done. apply Hwf.
Qed.

Lemma removeWorker_wf first c :
  workers_wf c → workers_wf (removeWorker first c).1.2 ∧
  c_queueURL (removeWorker first c).1.2 = c_queueURL c.
Proof.
  intros Hwf. unfold removeWorker. destruct (_ <=? _); [done|].
  destruct (c_workers c !! first) as [victim|] eqn:E; [|done]. simpl.
  split; [|done]. intros k w. simpl.
  destruct (decide (first = k)) as [->|Hne].
  - by rewrite lookup_delete_eq.
  - rewrite lookup_delete_ne by done. apply Hwf.
Qed.

Lemma Start_loop_wf now uuid n : ∀ i c,
  workers_wf c →
  workers_wf (Start_loop now uuid i n c).1.2 ∧
  c_queueURL (Start_loop now uuid i n c).1.2 = c_queueURL c.
Proof.
  induction n as [|n IH]; intros i c Hwf; [done|]. simpl.
  destruct (addWorker_wf now (uuid i) c Hwf) as [Hwf1 Hq1].
  destruct (addWorker now (uuid i) c) as [[r c1] ev1]. simpl in *.
  destruct r; [done|].
  destruct (IH (S i) c1 Hwf1) as [Hwf2 Hq2].
  destruct (Start_loop now uuid (S i) n c1) as [[r2 c2] ev2]. simpl in *.
  split; [done | congruence].
Qed.

Lemma Start_wf now uuid c :
  workers_wf c →
  workers_wf (Start now uuid c).1.2 ∧ c_queueURL (Start now uuid c).1.2 = c_queueURL c.
Proof.
  intros Hwf. unfold Start.
  destruct (Start_loop_wf now uuid (Z.to_nat (InitialWorkerCount (c_config c))) 0 c Hwf)
    as [H1 H2].
  destruct (Start_loop _ _ _ _ _) as [[r c1] ev1]. by destruct r.
Qed.

Lemma NewConsumer_wf config : workers_wf (NewConsumer config).
Proof. intros k w. simpl. by rewrite lookup_empty. Qed.

Lemma evaluateScaling_wf t m c s :
  workers_wf c → workers_wf (evaluateScaling t m c s).1.2.
Proof.
  intros Hwf. unfold evaluateScaling.
  destruct (shouldScaleUp _ _ _ _).
  - pose proof (addWorker_wf (tick_now t) (tick_uuid t) c Hwf) as [H _].
    by destruct (addWorker _ _ _) as [[??]?].
  - destruct (shouldScaleDown _ _ _ _); [|done].
    destruct (_ <? _); [|done].
    pose proof (removeWorker_wf (tick_first t) c Hwf) as [H _].
    by destruct (removeWorker _ _) as [[??]?].
Qed.

Lemma evaluateScaling_no_removal t m c s :
  calls_removeWorker (evaluateScaling t m c s).2 = false →
  List.filter is_close (evaluateScaling t m c s).2 = [] ∧
  ∀ k, is_Some (c_workers c !! k) →
       is_Some (c_workers (evaluateScaling t m c s).1.2 !! k).
Proof.
  destruct (evaluateScaling_calls t m c s) as [_ ->].
  unfold scale_up_holds, scale_down_holds,
    queueDepth_at, processingTime_at, utilization_at.
  destruct (shouldScaleUp _ _ _ _) eqn:Hup; simpl.
  - intros _. rewrite evaluateScaling_up by done. simpl. split.
    + rewrite List.filter_app.
      destruct (addWorker_trace (tick_now t) (tick_uuid t) c) as (_ & _ & ->).
      by destruct (logErr_trace "Failed to scale up: "
                     (addWorker (tick_now t) (tick_uuid t) c).1.1) as (_ & _ & ->).
    + intros k Hk. unfold addWorker. destruct (_ <=? _); [done|]. simpl.
      destruct (decide (tick_uuid t = k)) as [->|Hne].
      * rewrite lookup_insert_eq. eauto.
      * by rewrite lookup_insert_ne.
  - destruct (shouldScaleDown _ _ _ _) eqn:Hdown; simpl.
    + destruct (_ <? _) eqn:Hcool; [done|]. intros _.
      apply Z.ltb_ge in Hcool. by rewrite evaluateScaling_cooling.
    + intros _. by rewrite evaluateScaling_idle.
Qed.

Lemma evaluateScaling_config t m c s :
  s_config (evaluateScaling t m c s).1.1 = s_config s ∧
  c_config (evaluateScaling t m c s).1.2 = c_config c.
Proof.
  unfold evaluateScaling.
  destruct (shouldScaleUp _ _ _ _).
  - pose proof (addWorker_config (tick_now t) (tick_uuid t) c) as H.
    by destruct (addWorker _ _ _) as [[??]?].
  - destruct (shouldScaleDown _ _ _ _); [|done].
    destruct (_ <? _); [|done].
    pose proof (removeWorker_config (tick_first t) c) as H.
    by destruct (removeWorker _ _) as [[??]?].
Qed.

Lemma scale_holds_config t m s s' :
  s_config s' = s_config s →
  scale_up_holds t m s' = scale_up_holds t m s ∧
  scale_down_holds t m s' = scale_down_holds t m s.
Proof.
  intros H. unfold scale_up_holds, scale_down_holds, shouldScaleUp, shouldScaleDown.
  by rewrite H.
Qed.

Lemma scenario_B_holds : scenario_B.
Proof.
  intros t0 t1 t2 m0 m1 m2 c s Hwf Hcd Hord Ht0 Hup0 Ht1 Hdn1 Ht2 Hdn2 Hmin0 Hmin Hfirst.
  pose proof (evaluateScaling_wf t0 m0 c s Hwf) as Hwf1.
  pose proof (evaluateScaling_calls t0 m0 c s) as [Hcall0 _].
  pose proof (evaluateScaling_lastScaleEvent t0 m0 c s) as Hlast0.
  pose proof (evaluateScaling_config t0 m0 c s) as [Hcfg0 Hccfg0].
  destruct (evaluateScaling t0 m0 c s) as [[s1 c1] ev0]. simpl in *.
  rewrite Hcall0, Hup0, Ht0 in Hlast0. simpl in Hlast0.
  destruct (scale_holds_config t1 m1 s s1 Hcfg0) as [Hu1 Hd1].
  destruct (scale_holds_config t2 m2 s s1 Hcfg0) as [Hu2 Hd2].
  assert (scale_up_holds t1 m1 s1 = false) as Hnu1.
  { apply shouldScaleDown_not_up; [by rewrite Hcfg0 | by rewrite <- Hdn1, <- Hd1]. }
  assert (scale_up_holds t2 m2 s1 = false) as Hnu2.
  { apply shouldScaleDown_not_up; [by rewrite Hcfg0 | by rewrite <- Hdn2, <- Hd2]. }
  rewrite (evaluateScaling_cooling t1 m1 c1 s1);
    [|exact Hnu1 | rewrite Hlast0, Ht1, Hcfg0, Hcd; unfold Second; lia].
  assert (∃ w, c_workers c1 !! tick_first t2 = Some w) as [w Hw].
  { destruct Hfirst as [[He _]|[w Hw]]; [|by exists w].
    unfold len_workers in Hmin. rewrite He, map_size_empty in Hmin. lia. }
  rewrite (evaluateScaling_down t2 m2 c1 s1);
    [|exact Hnu2 | exact (eq_trans Hd2 Hdn2)
     | rewrite Hlast0, Ht2, Hcfg0, Hcd; unfold Second; lia].
  rewrite (removeWorker_room _ _ w) by (by rewrite ?Hccfg0). simpl.
  destruct (Hwf1 _ _ Hw) as (Hid & _).
  repeat split; try done.
  - by rewrite Hcall0.
  - by rewrite Hid.
  - by apply (len_delete _ w).
Qed.

(** C2: scale-up is not gated by the cooldown, scale-down is.  On every
    tick on which the scale-up predicate holds [addWorker] is invoked,
    whatever [lastScaleEvent] and the cooldown are; on a tick with
    [now - lastScaleEvent <= cooldown], [removeWorker] is not invoked, no
    worker is stopped and every worker of the pool is still in it; and
    scenario B goes as the specification says on a pool whose workers
    are running. *)
Theorem scale_up_ungated_scale_down_gated :
  (∀ t m c s,
     scale_up_holds t m s = true →
     calls_addWorker (evaluateScaling t m c s).2 = true) ∧
  (∀ t m c s,
     tick_now t - s_lastScaleEvent s <= CooldownPeriod (s_config s) →
     calls_removeWorker (evaluateScaling t m c s).2 = false ∧
     List.filter is_close (evaluateScaling t m c s).2 = [] ∧
     ∀ k, is_Some (c_workers c !! k) →
          is_Some (c_workers (evaluateScaling t m c s).1.2 !! k)) ∧
  scenario_B.
Proof.
  split; [|split].
  - intros t m c s Hup. by destruct (evaluateScaling_calls t m c s) as [-> _].
  - intros t m c s Hcool.
    assert (calls_removeWorker (evaluateScaling t m c s).2 = false) as Hno.
    { destruct (evaluateScaling_calls t m c s) as [_ ->].
      replace (_ <? _) with false; [by rewrite andb_false_r|].
      symmetry. apply Z.ltb_ge. lia. }
    split; [done|]. by apply evaluateScaling_no_removal.
  - exact scenario_B_holds.
Qed.

Lemma scale_up_ungated_scale_down_gated_witness :
  let s := NewScaler 0 config_main in
  let c := started_pool config_main in
  let m0 := collector_depth 0 100 in
  let m1 := collector_depth (4 * Second) 0 in
  let '(s1, c1, ev0) := evaluateScaling (tick_at 0) m0 c s in
  let '(s2, c2, ev1) := evaluateScaling (tick_at (5 * Second)) m1 c1 s1 in
  let '(s3, c3, ev2) := evaluateScaling (tick_at (31 * Second)) m1 c2 s2 in
  calls_addWorker ev0 = true ∧ s_lastScaleEvent s1 = 0 ∧
  ev1 = [] ∧ c2 = c1 ∧ s_lastScaleEvent s2 = 0 ∧
  ev2 = [ERemoveWorker None; EClose "w0"] ∧
  len_workers c3 = len_workers c1 - 1 ∧
  s_lastScaleEvent s3 = 31 * Second.
Proof.
  refine (proj2 (proj2 scale_up_ungated_scale_down_gated)
            (tick_at 0) (tick_at (5 * Second)) (tick_at (31 * Second))
            (collector_depth 0 100) (collector_depth (4 * Second) 0)
            (collector_depth (4 * Second) 0)
            (started_pool config_main) (NewScaler 0 config_main)
            _ _ _ _ _ _ _ _ _ _ _ _).
  - apply (Start_wf 0 uuid_seq (NewConsumer config_main)
             (NewConsumer_wf config_main)).
  - reflexivity.
  - by vm_compute.
  - reflexivity.
  - by vm_compute.
  - reflexivity.
  - by vm_compute.
  - reflexivity.
  - by vm_compute.
  - by vm_compute.
  - by vm_compute.
  - right. vm_compute. eauto.
Defined.

(** One sample drained at the instant it was recorded is the whole
    window, and the one-minute average is its value. *)
Lemma window_collector_processing now d :
  window MetricProcessingTime (collector_processing now d) =
    [{| dpValue := inject_Z (Milliseconds d); dpTimestamp := now |}].
Proof.
  unfold collector_processing.
  change MetricProcessingTime with (Name (RecordProcessingTime now d)) at 1.
  rewrite window_processMetric. simpl.
  assert (window MetricProcessingTime collector0 = []) as ->
    by (unfold window, collector0; simpl; by rewrite lookup_empty).
  simpl.
  unfold After. replace (now + - (30 * Minute) <? now) with true; [done|].
  symmetry. apply Z.ltb_lt. unfold Minute, Second. lia.
Qed.

Lemma processingTime_at_single now d t :
  tick_now t = now →
  (processingTime_at t (collector_processing now d) == inject_Z (Milliseconds d))%Q.
Proof.
  intros Ht. unfold processingTime_at. rewrite Ht.
  assert (recent now (1 * Minute)
            (window MetricProcessingTime (collector_processing now d))
          = [{| dpValue := inject_Z (Milliseconds d); dpTimestamp := now |}]) as Hr.
  { rewrite window_collector_processing. unfold recent, newer.
    rewrite filter_cons, filter_nil. simpl.
    rewrite decide_True; [done|]. unfold Minute, Second. lia. }
  rewrite GetMetricAverage_recent by (by rewrite Hr).
  rewrite Hr. unfold mean. simpl. field.
Qed.

Lemma scenario_E_holds : scenario_E.
Proof.
  intros t m c s Hq Hp Hu Hth.
  assert (75 < utilization_at t m)%Q as Hfire by (by rewrite Hu).
  repeat split.
  - destruct (evaluateScaling_calls t m c s) as [-> _].
    apply shouldScaleUp_iff. right. left. exact Hfire.
  - by apply Qgtb_lt.
  - apply not_true_is_false. intros H. apply Qgtb_lt in H.
    rewrite Hq, Hth in H. done.
Qed.

(** C4: on every tick [addWorker] is invoked exactly when the current
    queue depth exceeds the scale-up threshold, or the one-minute average
    utilization exceeds 75, or the one-minute average of [ProcessingTime]
    exceeds the target processing time counted in seconds.  The
    [ProcessingTime] samples are counts of milliseconds, and the average
    is compared as it is: a single message that took 31 ms makes the
    scaler that [main] builds (target 30 s) scale up.  Scenario E goes as the
    specification says. *)
Theorem scale_up_decision :
  (∀ t m c s,
     calls_addWorker (evaluateScaling t m c s).2 = true ↔
     (ScaleUpThreshold (s_config s) < queueDepth_at m)%Q
     ∨ (75 < utilization_at t m)%Q
     ∨ (Seconds (TargetProcessingTime (s_config s)) < processingTime_at t m)%Q) ∧
  (∀ now d t,
     tick_now t = now →
     Unit (RecordProcessingTime now d) = "Milliseconds" ∧
     (processingTime_at t (collector_processing now d)
        == inject_Z (Milliseconds d))%Q) ∧
  (∀ now c,
     calls_addWorker
       (evaluateScaling (tick_at now) (collector_processing now (31 * Millisecond))
          c (NewScaler 0 config_main)).2 = true) ∧
  scenario_E.
Proof.
  split; [|split; [|split]].
  - intros t m c s. destruct (evaluateScaling_calls t m c s) as [-> _].
    apply shouldScaleUp_iff.
  - intros now d t Ht. split; [done|]. by apply processingTime_at_single.
  - intros now c. destruct (evaluateScaling_calls (tick_at now)
      (collector_processing now (31 * Millisecond)) c (NewScaler 0 config_main))
      as [-> _].
    apply shouldScaleUp_iff. right. right.
    rewrite (processingTime_at_single now (31 * Millisecond) (tick_at now)) by done.
    by vm_compute.
  - exact scenario_E_holds.
Qed.

Lemma scale_up_decision_witness :
  let t := tick_at (5 * Second) in
  (queueDepth_at collector_E == 0)%Q ∧
  (processingTime_at t collector_E == 1)%Q ∧
  (utilization_at t collector_E == 80)%Q ∧
  calls_addWorker
    (evaluateScaling t collector_E
       (started_pool config_main) (NewScaler 0 config_main)).2 = true.
Proof.
  intros t.
  assert (queueDepth_at collector_E == 0)%Q as Hq by (by vm_compute).
  assert (processingTime_at t collector_E == 1)%Q as Hp by (by vm_compute).
  assert (utilization_at t collector_E == 80)%Q as Hu by (by vm_compute).
  split; [exact Hq|]. split; [exact Hp|]. split; [exact Hu|].
  apply (proj2 (proj2 (proj2 scale_up_decision)) t collector_E
           (started_pool config_main) (NewScaler 0 config_main) Hq Hp Hu).
  by vm_compute.
Defined.

Lemma scenario_A_holds : scenario_A.
Proof.
  intros now now1 now2 uuid config Hinj Hmin Hmax Hinit.
  destruct (Start_ok now uuid config Hinj) as (c0 & ev0 & -> & Hcfg & Hlen & Hnew);
    [lia|].
  rewrite addWorker_room by (rewrite Hcfg; lia).
  set (c1 := set_workers _ c0).
  assert (len_workers c1 = 3) as Hlen1.
  { subst c1. rewrite (len_insert_fresh (c_workers c0)); [lia | done |].
    apply Hnew. lia. }
  rewrite addWorker_full by (simpl; rewrite Hcfg; lia).
  repeat split; try done; lia.
Qed.

(** C3: in every pool state observable after [Start] has returned (with
    [0 <= initial] and [min <= initial <= max]), [addWorker] returns
    [MaxReached] and leaves the pool as it is exactly when the pool holds
    [max] workers, and succeeds otherwise; [removeWorker] returns
    [MinReached] and leaves the pool as it is exactly when the pool holds
    [min] workers, and succeeds otherwise; so [min <= |workers| <= max]
    at every observation; and scenario A goes as the specification
    says. *)
Theorem pool_bounds config c :
  0 <= InitialWorkerCount config →
  MinWorkerCount config <= InitialWorkerCount config <= MaxWorkerCount config →
  observable config c →
  MinWorkerCount config <= len_workers c <= MaxWorkerCount config ∧
  (∀ now workerID,
     let '(err, c', ev) := addWorker now workerID c in
     ((err = Some MaxReached ∧ c' = c) ↔ len_workers c = MaxWorkerCount config) ∧
     (err = None ↔ len_workers c ≠ MaxWorkerCount config)) ∧
  (∀ first,
     let '(err, c', ev) := removeWorker first c in
     ((err = Some MinReached ∧ c' = c) ↔ len_workers c = MinWorkerCount config) ∧
     (err = None ↔ len_workers c ≠ MinWorkerCount config)) ∧
  scenario_A.
Proof.
  intros H0 Hcfg Hobs.
  destruct (observable_inv config c H0 Hcfg Hobs) as [Hc Hinv].
  unfold pool_inv in Hinv. rewrite Hc in Hinv.
  split; [done|]. split; [|split].
  - intros now workerID.
    destruct (Z_lt_le_dec (len_workers c) (MaxWorkerCount config)) as [Hlt|Hge].
    + rewrite addWorker_room by (rewrite Hc; lia).
      split; split; try done; try lia. by intros [? _].
    + rewrite addWorker_full by (rewrite Hc; lia).
      split; split; try done; lia.
  - intros first.
    destruct (Z_lt_le_dec (MinWorkerCount config) (len_workers c)) as [Hlt|Hge].
    + unfold removeWorker. rewrite Hc.
      destruct (_ <=? _) eqn:E; [apply Z.leb_le in E; lia|].
      destruct (c_workers c !! first);
        (split; split; try done; try lia; by intros [? _]).
    + rewrite removeWorker_floor by (rewrite Hc; lia).
      split; split; try done; lia.
  - exact scenario_A_holds.
Qed.

Lemma pool_bounds_witness :
  let config := with_counts 2 2 3 config_main in
  observable config (started_pool config) ∧
  2 <= len_workers (started_pool config) <= 3.
Proof.
  intros config.
  assert (observable config (started_pool config)) as Hobs.
  { apply (obs_started config 0 uuid_seq (started_pool config)
             (Start 0 uuid_seq (NewConsumer config)).2 uuid_seq_inj).
    by vm_compute. }
  split; [exact Hobs|].
  apply (pool_bounds config (started_pool config)); [by vm_compute | by vm_compute | exact Hobs].
Defined.

Lemma Start_fail now uuid config :
  Inj (=) (=) uuid →
  0 <= MaxWorkerCount config < InitialWorkerCount config →
  ∃ c' ev,
    Start now uuid (NewConsumer config) =
      (Some ("failed to start initial workers: " ++ MaxReached)%string, c', ev) ∧
    len_workers c' = MaxWorkerCount config ∧
    length (started ev) = Z.to_nat (MaxWorkerCount config).
Proof.
  intros Hinj Hcfg. unfold Start. simpl.
  assert (len_workers (NewConsumer config) = 0) as Hlen0
    by (unfold len_workers; simpl; by rewrite map_size_empty).
  destruct (Start_loop_fail now uuid (Z.to_nat (InitialWorkerCount config)) 0
              (NewConsumer config))
    as (c' & ev & Hrun & Hlen & Hst); [done | done | ..].
  - rewrite Hlen0. simpl. lia.
  - rewrite Hlen0. simpl. lia.
  - rewrite Hrun. exists c', ev. split; [done|]. split; [done|].
    rewrite Hst, Hlen0. simpl. f_equal. lia.
Qed.

(** C5 (as stated): when [Start] fails, the workers it has started have
    been stopped.  False for initial = 3 and max = 2: [Start] fails on
    the third worker, and [w0] and [w1] are running, no channel having
    been closed. *)
Lemma Start_failure_worker_not_stopped :
  ¬ stopped_on_failure 0 uuid_seq (NewConsumer (with_counts 3 2 2 config_main)).
Proof.
  unfold stopped_on_failure.
  destruct (Start _ _ _) as [[err c'] ev] eqn:E.
  vm_compute in E. injection E as <- <- <-.
  intros H. destruct (H (ltac:(eauto)) "w0") as [Hclose|Hstopped].
  - apply list_elem_of_here.
  - apply list_elem_of_In in Hclose. simpl in Hclose.
    repeat (destruct Hclose as [Hclose|Hclose]; [discriminate Hclose|]).
    done.
  - apply Hstopped. eexists. split; [by vm_compute | done].
Qed.

(** C5 (amended): if creating one of the initial workers fails, which on
    a new consumer happens whenever [0 <= max < initial], [Start] returns
    the error to its caller; the workers that the call has already
    started are not stopped: each of them is in the pool with its stop
    signal not raised, and the call closes no channel. *)
Theorem Start_failure_keeps_workers_running :
  (∀ now uuid config,
     Inj (=) (=) uuid →
     0 <= MaxWorkerCount config < InitialWorkerCount config →
     ∃ c' ev,
       Start now uuid (NewConsumer config) =
         (Some "failed to start initial workers: max worker count reached", c', ev) ∧
       len_workers c' = MaxWorkerCount config ∧
       length (started ev) = Z.to_nat (MaxWorkerCount config)) ∧
  (∀ now uuid c err c' ev,
     Start now uuid c = (Some err, c', ev) →
     err = "failed to start initial workers: max worker count reached" ∧
     List.filter is_close ev = [] ∧
     ∀ workerID, workerID ∈ started ev → running c' workerID).
Proof.
  split.
  - intros now uuid config Hinj Hcfg. by apply Start_fail.
  - intros now uuid c err c' ev. unfold Start.
    destruct (Start_loop _ _ _ _ _) as [[r c1] ev1] eqn:E.
    destruct r as [e|]; [|done]. intros [= <- <- <-].
    destruct (Start_loop_running _ _ _ _ _ _ _ _ E) as (Hclose & _ & Hrun).
    split; [|done]. by apply Start_loop_err in E.
Qed.

Lemma Start_failure_keeps_workers_running_witness :
  let '(err, c', ev) :=
    Start 0 uuid_seq (NewConsumer (with_counts 3 2 2 config_main)) in
  is_Some err ∧ started ev = ["w0"; "w1"] ∧ running c' "w0" ∧ running c' "w1".
Proof.
  destruct (Start _ _ _) as [[err c'] ev] eqn:E.
  assert (is_Some err ∧ started ev = ["w0"; "w1"]) as [[e He] Hst].
  { vm_compute in E. injection E as <- <- <-. split; [eauto | done]. }
  subst err.
  destruct (proj2 Start_failure_keeps_workers_running _ _ _ _ _ _ E)
    as (_ & _ & Hrun).
  split; [eauto|]. split; [done|].
  split; apply Hrun; rewrite Hst.
  - apply list_elem_of_here.
  - apply list_elem_of_further, list_elem_of_here.
Defined.

(** ** Worker *)

Section Handling.

Variables (handler : Message → option string) (client : SQSClient).

Lemma handleDelivery_failure d w err :
  handler (d_msg d) = Some err →
  handleDelivery handler client d w =
    ([ELog ("Processing message " ++ MessageId (d_msg d));
      ESleep (5 * Second)]
     ++ handleError client (d_endTime d) (set_isProcessing true w) (d_msg d) err
     ++ [EMetric (RecordProcessingTime (d_endTime d)
                    (Since (d_endTime d) (d_startTime d)))],
     set_isProcessing false (set_isProcessing true w)).
Proof. intros H. unfold handleDelivery, processMessage. by rewrite H. Qed.

Lemma handleDelivery_success d w :
  handler (d_msg d) = None →
  handleDelivery handler client d w =
    ([ELog ("Processing message " ++ MessageId (d_msg d));
      ESleep (5 * Second);
      EDeleteMessage (w_queueURL w) (ReceiptHandle (d_msg d));
      EMetric (RecordProcessingTime (d_endTime d)
                 (Since (d_endTime d) (d_startTime d)))],
     set_isProcessing false
       (set_processedCount (wrap64 (w_processedCount w + 1))
          (set_isProcessing true w))).
Proof. intros H. unfold handleDelivery, processMessage. by rewrite H. Qed.

(** A batch deletes once per accepted delivery and resets the visibility
    once per failed one. *)
Lemma handleBatch_calls batch : ∀ w,
  length (List.filter is_delete (handleBatch handler client batch w).1)
    = length (handled handler batch) ∧
  (length (List.filter is_changeVisibility (handleBatch handler client batch w).1)
     + length (handled handler batch) = length batch)%nat.
Proof.
  induction batch as [|d batch IH]; intros w; [done|].
  simpl. destruct (handler (d_msg d)) as [err|] eqn:E.
  - rewrite (handleDelivery_failure _ _ err) by done.
    destruct (IH (set_isProcessing false (set_isProcessing true w))) as [IH1 IH2].
    destruct (handleBatch _ _ _ _) as [ev' w2]. simpl in *.
    unfold handleError.
    destruct (ChangeMessageVisibility _ _ _ _); simpl; rewrite IH1; lia.
  - rewrite handleDelivery_success by done.
    destruct (IH (set_isProcessing false
                    (set_processedCount (wrap64 (w_processedCount w + 1))
                       (set_isProcessing true w)))) as [IH1 IH2].
    destruct (handleBatch _ _ _ _) as [ev' w2]. simpl in *.
    rewrite IH1. lia.
Qed.

End Handling.

Lemma wrap64_small x : - 2^63 <= x < 2^63 → wrap64 x = x.
Proof.
  intros H. unfold wrap64. rewrite Z.mod_small; lia.
Qed.

Lemma wrap64_range x : - 2^63 <= wrap64 x < 2^63.
Proof.
  unfold wrap64. pose proof (Z.mod_pos_bound (x + 2^63) (2^64)). lia.
Qed.

(** C6: when the handler returns an error for a received message, the
    worker's handling of that message makes no delete call, makes exactly
    one change-visibility call, for the message's receipt handle and with
    a visibility timeout of 30 seconds, and sends exactly one
    [Error_processing_error] sample, of value 1; the count of processed
    messages does not move. *)
Theorem handler_error_resets_visibility handler client d w err :
  handler (d_msg d) = Some err →
  let '(ev, w') := handleDelivery handler client d w in
  List.filter is_delete ev = [] ∧
  List.filter is_changeVisibility ev =
    [EChangeMessageVisibility (w_queueURL w) (ReceiptHandle (d_msg d)) 30] ∧
  List.filter (is_metric_named "Error_processing_error") ev =
    [EMetric {| Name := "Error_processing_error"; Value := 1;
                Unit := "Count"; Timestamp := d_endTime d |}] ∧
  w_processedCount w' = w_processedCount w.
Proof.
  intros H. rewrite (handleDelivery_failure _ _ _ _ err) by done.
  unfold handleError. simpl.
  by destruct (ChangeMessageVisibility _ _ _ _).
Qed.

Lemma handler_error_resets_visibility_witness :
  let '(ev, w') :=
    handleDelivery handler_failing client_ok delivery_m (NewWorker 0 "w0" "queue") in
  handler_failing message_m = Some "handler failed" ∧
  List.filter is_delete ev = [] ∧
  List.filter is_changeVisibility ev =
    [EChangeMessageVisibility "queue" "receipt-m" 30] ∧
  w_processedCount w' = 0.
Proof.
  pose proof (handler_error_resets_visibility handler_failing client_ok delivery_m
                (NewWorker 0 "w0" "queue") "handler failed" eq_refl) as H.
  destruct (handleDelivery _ _ _ _) as [ev w'].
  destruct H as (Hd & Hc & _ & Hn).
  split; [reflexivity|]. split; [exact Hd|]. split; [exact Hc | exact Hn].
Defined.

(** C10: when the handler succeeds and the delete call returns an
    error, the error is dropped.  The worker's trace for the message is
    the log line of [processMessage], the sleep, the delete call and the
    processing-time sample: no [Error_] sample, no change-visibility
    call, no log line besides the one written before handling; the count
    of processed messages is incremented; and trace and worker state are
    those of a run in which the delete call succeeds. *)
Theorem delete_error_is_discarded handler client d w e :
  handler (d_msg d) = None →
  DeleteMessage client (w_queueURL w) (ReceiptHandle (d_msg d)) = Some e →
  let '(ev, w') := handleDelivery handler client d w in
  ev = [ELog ("Processing message " ++ MessageId (d_msg d));
        ESleep (5 * Second);
        EDeleteMessage (w_queueURL w) (ReceiptHandle (d_msg d));
        EMetric (RecordProcessingTime (d_endTime d)
                   (Since (d_endTime d) (d_startTime d)))] ∧
  List.filter is_error_metric ev = [] ∧
  List.filter is_changeVisibility ev = [] ∧
  List.filter is_log ev = [ELog ("Processing message " ++ MessageId (d_msg d))] ∧
  w_processedCount w' = wrap64 (w_processedCount w + 1) ∧
  (0 <= w_processedCount w < 2^63 - 1 →
   w_processedCount w' = w_processedCount w + 1) ∧
  handleDelivery handler client_ok d w = (ev, w').
Proof.
  intros H _. rewrite !handleDelivery_success by done.
  repeat split; try done.
  intros Hc. simpl. apply wrap64_small. lia.
Qed.

Lemma delete_error_is_discarded_witness :
  let '(ev, w') :=
    handleDelivery handler_placeholder client_down delivery_m (NewWorker 0 "w0" "queue") in
  DeleteMessage client_down "queue" "receipt-m" = Some "RequestTimeout" ∧
  List.filter is_error_metric ev = [] ∧
  List.filter is_log ev = [ELog "Processing message m"] ∧
  w_processedCount w' = 1.
Proof.
  pose proof (delete_error_is_discarded handler_placeholder client_down delivery_m
                (NewWorker 0 "w0" "queue") "RequestTimeout" eq_refl eq_refl) as H.
  destruct (handleDelivery _ _ _ _) as [ev w'].
  destruct H as (_ & He & _ & Hl & _ & Hn & _).
  split; [reflexivity|]. split; [exact He|]. split; [exact Hl|].
  apply Hn. simpl. lia.
Defined.

(** The count of processed messages after a batch, as long as the
    counter does not wrap; the window start is not touched. *)
Lemma handleBatch_count handler client batch : ∀ w,
  0 <= w_processedCount w →
  w_processedCount w + Z.of_nat (length (handled handler batch)) < 2^63 →
  w_processedCount (handleBatch handler client batch w).2
    = w_processedCount w + Z.of_nat (length (handled handler batch)) ∧
  w_lastWindowTime (handleBatch handler client batch w).2 = w_lastWindowTime w.
Proof.
  induction batch as [|d batch IH]; intros w H0 Hlt; simpl.
  - split; [lia | done].
  - simpl in Hlt. destruct (handler (d_msg d)) as [err|] eqn:E.
    + rewrite (handleDelivery_failure _ _ _ _ err) by done.
      destruct (IH (set_isProcessing false (set_isProcessing true w)) H0 Hlt)
        as [IH1 IH2].
      by destruct (handleBatch _ _ _ _) as [ev' w2].
    + rewrite handleDelivery_success by done.
      simpl in Hlt.
      set (w1 := set_isProcessing false _).
      assert (w_processedCount w1 = w_processedCount w + 1) as Hw1.
      { subst w1. simpl. apply wrap64_small. lia. }
      destruct (IH w1) as [IH1 IH2]; [lia | lia |].
      destruct (handleBatch _ _ _ _) as [ev' w2]. simpl in *.
      split; [lia | done].
Qed.

Lemma trackUtilization_tick_publishes nowT w :
  0 < wrap64 (Unix nowT - w_lastWindowTime w) →
  (trackUtilization_tick nowT w).1 =
    [EMetric (RecordWorkerUtilization nowT
       (let u := (inject_Z (w_processedCount w)
                  / inject_Z (wrap64 (Unix nowT - w_lastWindowTime w)) * 100)%Q in
        if Qgtb u 100 then 100%Q else u))].
Proof.
  intros H. unfold trackUtilization_tick. simpl.
  destruct (0 <? _) eqn:E; [done|]. apply Z.ltb_ge in E. lia.
Qed.



Lemma rate_nonneg (processed elapsed : Z) :
  0 <= processed → 0 < elapsed →
  (0 <= inject_Z processed / inject_Z elapsed * 100)%Q.
Proof.
  intros Hp He. apply Qmult_le_0_compat; [|done].
  apply Qle_shift_div_l.
  - change 0%Q with (inject_Z 0). by rewrite <- Zlt_Qlt.
  - rewrite Qmult_0_l. change 0%Q with (inject_Z 0). by rewrite <- Zle_Qle.
Qed.




(** ** Metrics window *)

(** C7 (as stated): after a sample has been applied every point of the
    window is at most 30 minutes old.  False when producers interleave:
    with the window [[2000 ns; 1000 ns]], a sample applied 30 minutes and
    1500 ns after the epoch finds the first point fresh, prunes nothing,
    and the point of 1000 ns stays although it is older than the
    horizon. *)
Lemma stale_point_survives_pruning :
  ¬ within_retention (30 * Minute + 1500)
      (RecordMetric (30 * Minute + 1500) "X" 1 "Count") collector_interleaved.
Proof.
  unfold within_retention.
  set (l := window _ _).
  assert (l = [ {| dpValue := 1; dpTimestamp := 2000 |};
                {| dpValue := 1; dpTimestamp := 1000 |};
                {| dpValue := 1; dpTimestamp := 30 * Minute + 1500 |} ]) as ->
    by (by vm_compute).
  intros H. apply Forall_cons in H as [_ H]. apply Forall_cons in H as [H _].
  simpl in H. unfold Minute, Second in H. lia.
Qed.

(** C7 (amended): when a sample is applied and some point of the window
    it is appended to (the sample itself, for one) is strictly newer than
    [now - 30min], the pruning step removes exactly the leading run of
    points that are not, and stops at the first point that is: the window
    after the step is the window before it without that run, and it
    starts with an in-window point.  The points behind that one are kept
    whatever their timestamps; all of them are in-window when the
    timestamps of the window are in non-decreasing order. *)
Theorem pruning_drops_leading_stale_run now metric c :
  let before := window (Name metric) c ++ [point_of metric] in
  let after := window (Name metric) (processMetric now metric c) in
  Exists (fresh now) before →
  ∃ old first rest,
    before = old ++ after ∧ after = first :: rest ∧
    Forall (stale now) old ∧ fresh now first ∧
    (time_ordered before → Forall (fresh now) after).
Proof.
  intros before after Hex.
  destruct (keepIndex_loop_found now before 0%nat Hex)
    as (old & first & rest & Hbefore & Hold & Hfirst & Hk).
  assert (after = first :: rest) as Hafter.
  { subst after. rewrite window_processMetric. simpl. fold before.
    rewrite Hk. simpl. destruct (0 <? length old)%nat eqn:E.
    - by rewrite Hbefore, drop_app_length.
    - apply Nat.ltb_ge in E. destruct old; [done | simpl in E; lia]. }
  exists old, first, rest. rewrite Hafter.
  repeat split; try done.
  intros Hsorted. rewrite Hbefore in Hsorted.
  apply StronglySorted_app_1_r, StronglySorted_cons in Hsorted as [Hle _].
  constructor; [done|].
  eapply Forall_impl; [exact Hle|]. unfold fresh in *. simpl. intros dp Hdp. lia.
Qed.

Lemma pruning_drops_leading_stale_run_witness :
  let now := 31 * Minute in
  let metric := RecordMetric now "X" 30 "Count" in
  Exists (fresh now) (window "X" collector_C ++ [point_of metric]) ∧
  window "X" (processMetric now metric collector_C) =
    [ {| dpValue := 20; dpTimestamp := 120 * Second |}; point_of metric ].
Proof.
  intros now metric.
  assert (Exists (fresh now) (window "X" collector_C ++ [point_of metric])) as Hex.
  { apply Exists_app. right. apply Exists_cons_hd. by vm_compute. }
  split; [exact Hex|].
  destruct (pruning_drops_leading_stale_run now metric collector_C Hex)
    as (old & first & rest & Hbefore & Hafter & _).
  by vm_compute.
Defined.

(** C8 (as stated): the average is 0 if and only if the window has no
    sample strictly newer than [now - d].  False for a queue that is
    empty: one [QueueDepth] sample of value 0, one second old, is in the
    one-minute window and the average is 0. *)
Lemma average_zero_with_recent_sample :
  ¬ zero_iff_no_recent (2 * Second) MetricQueueDepth (1 * Minute)
      (collector_depth Second 0).
Proof.
  unfold zero_iff_no_recent. intros [H _].
  assert (Qeq (GetMetricAverage (2 * Second) MetricQueueDepth (1 * Minute)
                 (collector_depth Second 0)) 0) as H0 by (by vm_compute).
  apply H in H0. vm_compute in H0. discriminate H0.
Qed.

(** C8 (amended): the average is 0 when the window of the name has no
    sample strictly newer than [now - d]; when it has, the average is the
    unweighted mean of those samples.  That mean is itself 0 when their
    values sum to 0, so an average of 0 does not tell that there is no
    such sample. *)
Theorem average_is_mean_of_recent now name d c :
  (recent now d (window name c) = [] →
   GetMetricAverage now name d c = 0%Q) ∧
  (recent now d (window name c) ≠ [] →
   (GetMetricAverage now name d c == mean (recent now d (window name c)))%Q) ∧
  ((Qsum (map dpValue (recent now d (window name c))) == 0)%Q →
   (GetMetricAverage now name d c == 0)%Q).
Proof.
  split; [apply GetMetricAverage_no_recent|].
  split; [apply GetMetricAverage_recent|].
  intros Hsum. destruct (recent now d (window name c)) as [|dp r] eqn:E.
  - by rewrite GetMetricAverage_no_recent.
  - rewrite GetMetricAverage_recent by (by rewrite E).
    rewrite E. unfold mean. rewrite Hsum. unfold Qdiv. apply Qmult_0_l.
Qed.

Lemma average_is_mean_of_recent_witness :
  recent (121 * Second) (60 * Second) (window "X" collector_C) ≠ [] ∧
  Qeq (GetMetricAverage (121 * Second) "X" (60 * Second) collector_C) 20.
Proof.
  assert (recent (121 * Second) (60 * Second) (window "X" collector_C) ≠ [])
    as Hne by (by vm_compute).
  split; [exact Hne|].
  rewrite (proj1 (proj2 (average_is_mean_of_recent
                           (121 * Second) "X" (60 * Second) collector_C)) Hne).
  by vm_compute.
Defined.

(** * Further properties of the package *)

(** ** Metrics collector *)

Lemma cleanup_values now name c :
  metricValues (cleanupOldDataPoints now name c) = metricValues c.
Proof. unfold cleanupOldDataPoints. by destruct (0 <? _)%nat. Qed.

Lemma cleanup_window_other now name other c :
  other ≠ name →
  window other (cleanupOldDataPoints now name c) = window other c.
Proof.
  intros Hne. unfold cleanupOldDataPoints, window.
  destruct (0 <? _)%nat; [|done]. simpl. by rewrite lookup_insert_ne.
Qed.

Lemma processMetric_values now metric c :
  metricValues (processMetric now metric c)
    = <[Name metric := Value metric]> (metricValues c).
Proof. unfold processMetric. by rewrite cleanup_values. Qed.

Lemma processMetric_window_other now metric c name :
  name ≠ Name metric →
  window name (processMetric now metric c) = window name c.
Proof.
  intros Hne. unfold processMetric. rewrite cleanup_window_other by done.
  unfold window. simpl. rewrite lookup_insert_ne by done.
  destruct (metricWindow c !! Name metric); [done|].
  by rewrite lookup_insert_ne.
Qed.

Lemma processMetric_namespace now metric c :
  namespace (processMetric now metric c) = namespace c.
Proof.
  unfold processMetric, cleanupOldDataPoints. by destruct (0 <? _)%nat.
Qed.

(** The search loop answers 0 or the position of a point of the list. *)
Lemma keepIndex_loop_bound cutoff l : ∀ i,
  keepIndex_loop cutoff i l = 0%nat ∨
  ∃ j, (j < length l)%nat ∧ keepIndex_loop cutoff i l = (i + j)%nat.
Proof.
  induction l as [|dp l IH]; intros i; simpl; [by left|].
  destruct (After _ _).
  - right. exists 0%nat. split; lia.
  - destruct (IH (S i)) as [H0|(j & Hj & Hk)]; [by left|].
    right. exists (S j). split; lia.
Qed.

Lemma keepIndex_loop_all_stale now l : ∀ i,
  Forall (stale now) l → keepIndex_loop (now + - (30 * Minute)) i l = 0%nat.
Proof.
  induction l as [|dp l IH]; intros i Hall; simpl; [done|].
  apply Forall_cons in Hall as [Hdp Hall].
  replace (After _ _) with false; [by apply IH|].
  symmetry. apply After_ge. unfold stale in Hdp. lia.
Qed.

(** X1: applying a sample makes its value the current value of its
    name, and leaves the current value and the window of every other
    name as they were. *)
Theorem processMetric_current_and_frame now metric c :
  GetMetric (Name metric) (processMetric now metric c) = Value metric ∧
  ∀ name, name ≠ Name metric →
    GetMetric name (processMetric now metric c) = GetMetric name c ∧
    window name (processMetric now metric c) = window name c.
Proof.
  unfold GetMetric. rewrite processMetric_values. split.
  - by rewrite lookup_insert_eq.
  - intros name Hne. rewrite lookup_insert_ne by done.
    split; [done|]. by apply processMetric_window_other.
Qed.

Lemma processMetric_current_and_frame_witness :
  let c := processMetric (2 * Second) (RecordMetric (2 * Second) "X" 7 "Count")
             (collector_depth Second 3) in
  MetricQueueDepth ≠ "X" ∧
  Qeq (GetMetric MetricQueueDepth c) 3 ∧
  window MetricQueueDepth c = window MetricQueueDepth (collector_depth Second 3).
Proof.
  intros c. assert (MetricQueueDepth ≠ "X") as Hne by done.
  split; [exact Hne|].
  destruct (proj2 (processMetric_current_and_frame (2 * Second)
                     (RecordMetric (2 * Second) "X" 7 "Count")
                     (collector_depth Second 3)) MetricQueueDepth Hne) as [Hg Hw].
  split; [|exact Hw]. subst c. rewrite Hg. by vm_compute.
Defined.

Lemma window_after_processMetric now metric c :
  ∃ dropped kept,
    window (Name metric) c = dropped ++ kept ∧
    window (Name metric) (processMetric now metric c) = kept ++ [point_of metric].
Proof.
  rewrite window_processMetric. simpl.
  set (old := window (Name metric) c).
  destruct (keepIndex_loop_bound (now + - (30 * Minute)) (old ++ [point_of metric]) 0)
    as [-> | (j & Hj & ->)].
  - exists [], old. by simpl.
  - simpl. rewrite length_app in Hj. simpl in Hj.
    destruct (0 <? j)%nat.
    + exists (take j old), (drop j old). rewrite take_drop. split; [done|].
      rewrite drop_app. replace (j - length old)%nat with 0%nat by lia. done.
    + exists [], old. by simpl.
Qed.

(** X2: pruning never removes the sample that has just been applied.
    The window after the step is a suffix of the old window followed by
    the new point: the new point is its last element, and it is at most
    one point longer than the old window. *)
Theorem processMetric_keeps_new_sample now metric c :
  ∃ dropped kept,
    window (Name metric) c = dropped ++ kept ∧
    window (Name metric) (processMetric now metric c) = kept ++ [point_of metric] ∧
    last (window (Name metric) (processMetric now metric c)) = Some (point_of metric) ∧
    (length (window (Name metric) (processMetric now metric c))
     <= S (length (window (Name metric) c)))%nat.
Proof.
  destruct (window_after_processMetric now metric c) as (dropped & kept & Hold & Hnew).
  exists dropped, kept. rewrite Hnew, Hold, last_snoc, !length_app. simpl.
  repeat split; try done. lia.
Qed.

(** X3: in every state the drain loop reaches, the current value of a
    name is the value of the last point of its window, and a name
    without a current value has an empty window, reads as 0 and averages
    to 0. *)
Theorem current_value_is_last_point c :
  drained c →
  ∀ name,
    match last (window name c) with
    | Some dp => metricValues c !! name = Some (dpValue dp)
    | None =>
        metricValues c !! name = None ∧ window name c = [] ∧
        GetMetric name c = 0%Q ∧
        ∀ now d, GetMetricAverage now name d c = 0%Q
    end.
Proof.
  intros [received Hc].
  assert (∀ l c0,
            (∀ name, match last (window name c0) with
                     | Some dp => metricValues c0 !! name = Some (dpValue dp)
                     | None => metricValues c0 !! name = None ∧ window name c0 = []
                     end) →
            ∀ name, match last (window name (drain l c0)) with
                    | Some dp => metricValues (drain l c0) !! name = Some (dpValue dp)
                    | None => metricValues (drain l c0) !! name = None
                              ∧ window name (drain l c0) = []
                    end) as Hind.
  { induction l as [|[now metric] l IH]; intros c0 H0; [done|].
    simpl. apply IH. intros name.
    destruct (decide (name = Name metric)) as [->|Hne].
    - destruct (window_after_processMetric now metric c0)
        as (dropped & kept & _ & ->).
      rewrite last_snoc, processMetric_values. by rewrite lookup_insert_eq.
    - rewrite processMetric_window_other, processMetric_values by done.
      rewrite lookup_insert_ne by done. apply H0. }
  intros name. rewrite Hc.
  specialize (Hind received (NewMetricsCollector (namespace c))).
  rewrite <- Hc in *.
  assert (∀ name, match last (window name (NewMetricsCollector (namespace c))) with
                  | Some dp => metricValues (NewMetricsCollector (namespace c)) !! name
                               = Some (dpValue dp)
                  | None => metricValues (NewMetricsCollector (namespace c)) !! name = None
                            ∧ window name (NewMetricsCollector (namespace c)) = []
                  end) as Hnew.
  { intros n. unfold window. simpl. by rewrite !lookup_empty. }
  specialize (Hind Hnew name).
  destruct (last (window name c)) as [dp|]; [done|].
  destruct Hind as [Hv Hw]. repeat split; try done.
  - unfold GetMetric. by rewrite Hv.
  - intros now d. apply GetMetricAverage_no_recent. by rewrite Hw.
Qed.

Lemma current_value_is_last_point_witness :
  drained collector_C ∧ metricValues collector_C !! "X" = Some 20%Q.
Proof.
  assert (drained collector_C) as Hd.
  { exists [(0, RecordMetric 0 "X" 10 "Count");
            (120 * Second, RecordMetric (120 * Second) "X" 20 "Count")].
    reflexivity. }
  split; [exact Hd|].
  pose proof (current_value_is_last_point collector_C Hd "X") as H.
  assert (last (window "X" collector_C)
          = Some {| dpValue := 20; dpTimestamp := 120 * Second |}) as Hl
    by (by vm_compute).
  rewrite Hl in H. exact H.
Defined.

(** X4: when no point of the window, the applied sample included, is
    strictly newer than [now - 30min], the pruning step removes nothing:
    the window is the old one followed by the new point. *)
Theorem stale_window_is_not_pruned now metric c :
  Forall (stale now) (window (Name metric) c ++ [point_of metric]) →
  window (Name metric) (processMetric now metric c)
    = window (Name metric) c ++ [point_of metric].
Proof.
  intros Hall. rewrite window_processMetric. simpl.
  by rewrite keepIndex_loop_all_stale.
Qed.

Lemma stale_window_is_not_pruned_witness :
  let metric := RecordMetric 0 "X" 1 "Count" in
  Forall (stale (31 * Minute)) (window "X" collector0 ++ [point_of metric]) ∧
  window "X" (processMetric (31 * Minute) metric collector0) = [point_of metric].
Proof.
  intros metric.
  assert (window "X" collector0 = []) as Hw
    by (unfold window, collector0; simpl; by rewrite lookup_empty).
  assert (Forall (stale (31 * Minute)) (window "X" collector0 ++ [point_of metric]))
    as Hall.
  { rewrite Hw. apply Forall_singleton. unfold stale, Minute, Second. simpl. lia. }
  split; [exact Hall|].
  pose proof (stale_window_is_not_pruned (31 * Minute) metric collector0 Hall) as H.
  change (Name metric) with "X" in H. rewrite H, Hw. reflexivity.
Defined.

(** X6: [publishMetrics] sends nothing when no metric has been
    recorded; otherwise it sends one request, in the collector's
    namespace, with exactly one datum per metric name, carrying the
    name's current value, the time of the call, and the unit [Count]
    whatever unit the metric was recorded with. *)
Theorem publishMetrics_one_datum_per_metric now order c :
  range_order (metricValues c) order →
  match publishMetrics now order c with
  | None => metricValues c = ∅
  | Some input =>
      metricValues c ≠ ∅ ∧
      Namespace input = namespace c ∧
      length (MetricData input) = size (metricValues c) ∧
      NoDup (map MetricName (MetricData input)) ∧
      (∀ name v,
         (∃ datum, datum ∈ MetricData input ∧
                   MetricName datum = name ∧ datumValue datum = v)
         ↔ metricValues c !! name = Some v) ∧
      Forall (λ datum, datumUnit datum = "Count" ∧ datumTimestamp datum = now)
        (MetricData input)
  end.
Proof.
  unfold range_order. intros Hperm. unfold publishMetrics.
  rewrite length_map.
  assert (length order = size (metricValues c)) as Hlen
    by (by rewrite Hperm, length_map_to_list).
  destruct (0 <? length order)%nat eqn:E.
  - apply Nat.ltb_lt in E. simpl. split; [|split; [done|split; [|split; [|split]]]].
    + apply map_size_non_empty_iff. lia.
    + by rewrite length_map.
    + rewrite map_map. simpl.
      change (map (λ x, x.1) order) with (order.*1).
      rewrite Hperm. apply NoDup_fst_map_to_list.
    + intros name v. rewrite <- elem_of_map_to_list, <- Hperm. split.
      * intros (datum & Hin & <- & <-).
        apply list_elem_of_fmap in Hin as ([n x] & -> & Hin). done.
      * intros Hin.
        exists {| MetricName := name; datumValue := v; datumTimestamp := now;
                  datumUnit := StandardUnitCount |}.
        split; [|done]. apply list_elem_of_fmap. by exists (name, v).
    + apply Forall_forall. intros datum Hin.
      apply list_elem_of_fmap in Hin as (nv & -> & _). done.
  - apply Nat.ltb_ge in E. apply map_size_empty_iff. lia.
Qed.

Lemma publishMetrics_one_datum_per_metric_witness :
  let order := map_to_list (metricValues collector_E) in
  range_order (metricValues collector_E) order ∧
  ∃ input, publishMetrics (10 * Second) order collector_E = Some input ∧
           length (MetricData input) = 3%nat ∧
           Forall (λ datum, datumUnit datum = "Count"
                            ∧ datumTimestamp datum = 10 * Second)
             (MetricData input).
Proof.
  intros order.
  assert (range_order (metricValues collector_E) order) as Hr
    by (unfold range_order, order; reflexivity).
  split; [exact Hr|].
  pose proof (publishMetrics_one_datum_per_metric (10 * Second) order collector_E Hr) as H.
  destruct (publishMetrics _ _ _) as [input|] eqn:E.
  - exists input. destruct H as (_ & _ & Hlen & _ & _ & Hall).
    split; [done|]. split; [|exact Hall].
    rewrite Hlen. vm_compute. reflexivity.
  - exfalso. vm_compute in E. discriminate E.
Defined.

(** ** Consumer *)

(** X7: in every pool state observable after [Start], each worker of
    the map is stored under its own identifier, polls the configured
    queue and has its stop channel open; so the [close] in
    [removeWorker] (and in a first [Shutdown]) never meets a channel
    that is closed already. *)
Theorem observable_workers_running config c :
  observable config c →
  c_queueURL c = QueueURL config ∧
  ∀ k w, c_workers c !! k = Some w →
    w_id w = k ∧ w_queueURL w = QueueURL config ∧ w_done w = false ∧
    close_done w = Some (Stop w).
Proof.
  intros Hobs.
  assert (workers_wf c ∧ c_queueURL c = QueueURL config) as [Hwf Hq].
  { induction Hobs as [now uuid c ev Hinj Hstart | c c' _ [IHwf IHq] Hstep].
    - destruct (Start_wf now uuid (NewConsumer config) (NewConsumer_wf config))
        as [H1 H2].
      rewrite Hstart in H1, H2. done.
    - destruct Hstep as [now workerID | first _].
      + destruct (addWorker_wf now workerID c IHwf) as [H1 H2].
        split; [done | congruence].
      + destruct (removeWorker_wf first c IHwf) as [H1 H2].
        split; [done | congruence]. }
  split; [done|]. intros k w Hw.
  destruct (Hwf k w Hw) as (Hid & Hurl & Hdone).
  repeat split; try done; [congruence|].
  unfold close_done. by rewrite Hdone.
Qed.

Lemma observable_workers_running_witness :
  let c := started_pool config_main in
  observable config_main c ∧
  ∃ w, c_workers c !! "w3" = Some w ∧ w_id w = "w3" ∧ w_done w = false.
Proof.
  intros c.
  assert (observable config_main c) as Hobs.
  { apply (obs_started config_main 0 uuid_seq c
             (Start 0 uuid_seq (NewConsumer config_main)).2 uuid_seq_inj).
    vm_compute. reflexivity. }
  split; [exact Hobs|].
  destruct (c_workers c !! "w3") as [w|] eqn:E.
  - exists w. split; [done|].
    destruct (proj2 (observable_workers_running config_main c Hobs) "w3" w E)
      as (Hid & _ & Hdone & _).
    done.
  - exfalso. vm_compute in E. discriminate E.
Defined.

(** X8: on a pool whose workers are stored under their identifiers,
    holding more than [min >= 0] workers, [removeWorker] stops and
    removes exactly the worker that [range] yields first: it returns no
    error, closes that worker's channel and no other, the pool shrinks by
    one and every other worker stays as it is. *)
Theorem removeWorker_removes_exactly_one first c :
  workers_wf c →
  0 <= MinWorkerCount (c_config c) < len_workers c →
  range_first (c_workers c) first →
  removeWorker first c =
    (None, set_workers (delete first (c_workers c)) c, [EClose first]) ∧
  len_workers (removeWorker first c).1.2 = len_workers c - 1 ∧
  c_workers (removeWorker first c).1.2 !! first = None ∧
  ∀ k, k ≠ first →
    c_workers (removeWorker first c).1.2 !! k = c_workers c !! k.
Proof.
  intros Hwf Hmin Hfirst.
  assert (∃ w, c_workers c !! first = Some w) as [w Hw].
  { destruct Hfirst as [[He _]|[w Hw]]; [|by exists w].
    unfold len_workers in Hmin. rewrite He, map_size_empty in Hmin. lia. }
  rewrite (removeWorker_room first c w) by (done || lia).
  destruct (Hwf first w Hw) as (-> & _). simpl.
  repeat split.
  - by apply (len_delete _ w).
  - apply lookup_delete_eq.
  - intros k Hne. by apply lookup_delete_ne.
Qed.

Lemma removeWorker_removes_exactly_one_witness :
  let c := started_pool config_main in
  range_first (c_workers c) "w2" ∧
  len_workers (removeWorker "w2" c).1.2 = 4 ∧
  (removeWorker "w2" c).2 = [EClose "w2"].
Proof.
  intros c.
  assert (range_first (c_workers c) "w2") as Hr.
  { right. vm_compute. eauto. }
  assert (workers_wf c) as Hwf.
  { destruct (Start_wf 0 uuid_seq (NewConsumer config_main)
                (NewConsumer_wf config_main)) as [H _]. exact H. }
  assert (0 <= MinWorkerCount (c_config c) < len_workers c) as Hm
    by (vm_compute; split; [discriminate | reflexivity]).
  destruct (removeWorker_removes_exactly_one "w2" c Hwf Hm Hr) as (Heq & Hlen & _).
  split; [exact Hr|]. split.
  - rewrite Hlen. vm_compute. reflexivity.
  - by rewrite Heq.
Defined.

(** X9: on a pool whose workers are running (stored under their
    identifiers, stop channels open), [addWorker] with a new identifier
    followed by [removeWorker] restores the size of the pool and keeps
    it within its bounds; the second call closes the channel of the
    worker [range] yields first, and when that worker is the one just
    added, the map is the one before the two calls. *)
Theorem add_then_remove_restores_size now workerID first c :
  workers_wf c →
  pool_inv c →
  len_workers c < MaxWorkerCount (c_config c) →
  c_workers c !! workerID = None →
  range_first (c_workers (addWorker now workerID c).1.2) first →
  let '(err1, c1, _) := addWorker now workerID c in
  let '(err2, c2, ev2) := removeWorker first c1 in
  err1 = None ∧ err2 = None ∧ ev2 = [EClose first] ∧
  len_workers c1 = len_workers c + 1 ∧
  len_workers c2 = len_workers c ∧ pool_inv c2 ∧ workers_wf c2 ∧
  (first = workerID → c_workers c2 = c_workers c).
Proof.
  intros Hwf Hinv Hroom Hnew.
  pose proof (addWorker_wf now workerID c Hwf) as [Hwf1 _].
  rewrite addWorker_room in Hwf1 |- * by done. simpl in Hwf1 |- *.
  set (c1 := set_workers _ c) in *. intros Hfirst.
  assert (len_workers c1 = len_workers c + 1) as Hlen1
    by (by apply len_insert_fresh).
  assert (∃ w, c_workers c1 !! first = Some w) as [w Hw].
  { destruct Hfirst as [[He _]|[w Hw]]; [|by exists w].
    exfalso.
    pose proof (lookup_insert_eq (c_workers c) workerID
                  (NewWorker now workerID (c_queueURL c))) as Hin.
    rewrite He in Hin. by rewrite lookup_empty in Hin. }
  unfold pool_inv in Hinv.
  rewrite (removeWorker_room first c1 w); [|simpl; lia|done].
  assert (len_workers (set_workers (delete first (c_workers c1)) c1) = len_workers c)
    as Hlen2 by (rewrite (len_delete _ w) by done; lia).
  destruct (Hwf1 first w Hw) as (Hid & _).
  pose proof (removeWorker_wf first c1 Hwf1) as [Hwf2 _].
  rewrite (removeWorker_room first c1 w) in Hwf2; [|simpl; lia|done].
  simpl in Hwf2.
  split; [done|]. split; [done|]. split; [by rewrite Hid|].
  split; [done|]. split; [done|]. split; [|split; [exact Hwf2|]].
  - unfold pool_inv. rewrite Hlen2. simpl. lia.
  - intros ->. simpl. rewrite delete_insert_eq. by apply delete_id.
Qed.

Lemma add_then_remove_restores_size_witness :
  let c := started_pool config_main in
  let '(err1, c1, _) := addWorker Second "w-next" c in
  let '(err2, c2, _) := removeWorker "w0" c1 in
  c_workers c !! "w-next" = None ∧
  err1 = None ∧ err2 = None ∧ len_workers c2 = len_workers c.
Proof.
  intros c.
  assert (pool_inv c) as Hinv
    by (vm_compute; split; discriminate).
  assert (len_workers c < MaxWorkerCount (c_config c)) as Hroom
    by (vm_compute; reflexivity).
  assert (c_workers c !! "w-next" = None) as Hnew by (vm_compute; reflexivity).
  assert (range_first (c_workers (addWorker Second "w-next" c).1.2) "w0") as Hr.
  { right. vm_compute. eauto. }
  assert (workers_wf c) as Hwf
    by apply (Start_wf 0 uuid_seq (NewConsumer config_main)
                (NewConsumer_wf config_main)).
  pose proof (add_then_remove_restores_size Second "w-next" "w0" c
                Hwf Hinv Hroom Hnew Hr) as H.
  destruct (addWorker Second "w-next" c) as [[err1 c1] ev1].
  destruct (removeWorker "w0" c1) as [[err2 c2] ev2].
  destruct H as (H1 & H2 & _ & _ & H4 & _).
  split; [exact Hnew|]. split; [exact H1|]. split; [exact H2 | exact H4].
Defined.

Lemma Shutdown_loop_ok order : ∀ ws,
  Forall (λ kw, w_done kw.2 = false) order →
  Shutdown_loop order ws =
    Some (foldl (λ m kw, <[kw.1 := Stop kw.2]> m) ws order,
          map (λ kw, EClose (w_id kw.2)) order).
Proof.
  induction order as [|[k w] order IH]; intros ws Hall; [done|].
  apply Forall_cons in Hall as [Hw Hall]. simpl in *.
  unfold close_done. rewrite Hw. by rewrite IH.
Qed.

Lemma foldl_stop_notin order : ∀ (ws : gmap string Worker) k,
  k ∉ order.*1 →
  foldl (λ m kw, <[kw.1 := Stop kw.2]> m) ws order !! k = ws !! k.
Proof.
  induction order as [|[k0 w0] order IH]; intros ws k Hk; [done|].
  simpl in *. apply not_elem_of_cons in Hk as [Hne Hk].
  rewrite IH by done. by rewrite lookup_insert_ne.
Qed.

Lemma foldl_stop_in order : ∀ (ws : gmap string Worker) k w,
  NoDup order.*1 → (k, w) ∈ order →
  foldl (λ m kw, <[kw.1 := Stop kw.2]> m) ws order !! k = Some (Stop w).
Proof.
  induction order as [|[k0 w0] order IH]; intros ws k w Hnd Hin.
  - by apply elem_of_nil in Hin.
  - simpl in *. apply NoDup_cons in Hnd as [Hk0 Hnd].
    apply elem_of_cons in Hin as [[= -> ->]|Hin].
    + rewrite foldl_stop_notin by done. by rewrite lookup_insert_eq.
    + by apply IH.
Qed.

(** X10: [Shutdown] on a pool whose workers all have an open stop
    channel closes the channel of every worker, each once, and removes
    none from the map; the workers stay in the map, stopped.  A second
    [Shutdown] of a pool that is not empty closes a closed channel: it
    panics. *)
Theorem Shutdown_stops_every_worker_once order c :
  workers_wf c →
  range_order (c_workers c) order →
  ∃ c', Shutdown order c = Some (c', map (λ kw, EClose kw.1) order) ∧
        (∀ k, c_workers c' !! k = Stop <$> c_workers c !! k) ∧
        len_workers c' = len_workers c ∧
        (∀ k, ¬ running c' k) ∧
        (∀ order', range_order (c_workers c') order' →
                   c_workers c ≠ ∅ → Shutdown order' c' = None).
Proof.
  unfold range_order. intros Hwf Hperm.
  assert (∀ k w, (k, w) ∈ order ↔ c_workers c !! k = Some w) as Hin.
  { intros k w. by rewrite Hperm, elem_of_map_to_list. }
  assert (NoDup order.*1) as Hnd.
  { rewrite Hperm. apply NoDup_fst_map_to_list. }
  assert (Forall (λ kw, w_done kw.2 = false) order) as Hopen.
  { apply Forall_forall. intros [k w] Hkw. apply Hin in Hkw.
    by destruct (Hwf k w Hkw) as (_ & _ & ?). }
  assert (map (λ kw : string * Worker, EClose (w_id kw.2)) order
          = map (λ kw, EClose kw.1) order) as Hev.
  { apply map_ext_in. intros [k w] Hkw. apply list_elem_of_In, Hin in Hkw.
    simpl. by destruct (Hwf k w Hkw) as (-> & _). }
  set (ws' := foldl (λ m kw, <[kw.1 := Stop kw.2]> m) (c_workers c) order).
  assert (∀ k, ws' !! k = Stop <$> c_workers c !! k) as Hlookup.
  { intros k. destruct (c_workers c !! k) as [w|] eqn:E.
    - apply (foldl_stop_in order); [done | by apply Hin].
    - unfold ws'. rewrite foldl_stop_notin; [done|].
      intros Hk. apply list_elem_of_fmap in Hk as ([k' w] & -> & Hkw).
      apply Hin in Hkw. simpl in E. congruence. }
  exists (set_workers ws' c).
  unfold Shutdown. rewrite Shutdown_loop_ok by done. rewrite Hev.
  split; [done|]. split; [exact Hlookup|]. split; [|split].
  - unfold len_workers. simpl. f_equal.
    assert (ws' = Stop <$> c_workers c) as ->
      by (apply map_eq; intros k; by rewrite Hlookup, lookup_fmap).
    apply map_size_fmap.
  - intros k (w & Hw & Hd). simpl in Hw. rewrite Hlookup in Hw.
    destruct (c_workers c !! k); [|done]. by injection Hw as <-.
  - intros order' Hperm' Hne. unfold Shutdown. simpl.
    destruct order' as [|[k w] rest].
    + exfalso. apply Hne. symmetry in Hperm'.
      apply Permutation_nil_r, map_to_list_empty_iff in Hperm'.
      simpl in Hperm'. apply map_eq. intros k. rewrite lookup_empty.
      pose proof (Hlookup k) as Hk. rewrite Hperm', lookup_empty in Hk.
      by destruct (c_workers c !! k).
    + assert ((k, w) ∈ map_to_list ws') as Hkw
        by (rewrite <- Hperm'; apply list_elem_of_here).
      apply elem_of_map_to_list in Hkw. rewrite Hlookup in Hkw.
      destruct (c_workers c !! k) as [w0|]; [|done].
      injection Hkw as <-. done.
Qed.

Lemma Shutdown_stops_every_worker_once_witness :
  let c := started_pool (with_counts 2 2 3 config_main) in
  let order := map_to_list (c_workers c) in
  range_order (c_workers c) order ∧
  ∃ c', Shutdown order c = Some (c', map (λ kw, EClose kw.1) order) ∧
        len_workers c' = 2 ∧ Shutdown (map_to_list (c_workers c')) c' = None.
Proof.
  intros c order.
  assert (range_order (c_workers c) order) as Hr
    by (unfold range_order, order; reflexivity).
  assert (workers_wf c) as Hwf.
  { destruct (Start_wf 0 uuid_seq (NewConsumer (with_counts 2 2 3 config_main))
                (NewConsumer_wf _)) as [H _]. exact H. }
  split; [exact Hr|].
  destruct (Shutdown_stops_every_worker_once order c Hwf Hr)
    as (c' & Hs & _ & Hlen & _ & Hagain).
  exists c'. split; [exact Hs|]. split.
  - rewrite Hlen. vm_compute. reflexivity.
  - apply Hagain; [unfold range_order; reflexivity|].
    intros He. assert (len_workers c = 0) as H0
      by (unfold len_workers; by rewrite He, map_size_empty).
    vm_compute in H0. discriminate H0.
Defined.

Lemma Start_loop_events now uuid n : ∀ i c,
  Forall (λ e, ∃ workerID,
            e = EGo "trackUtilization" workerID ∨ e = EGo "Start" workerID)
    (Start_loop now uuid i n c).2.
Proof.
  induction n as [|n IH]; intros i c; simpl; [constructor|].
  unfold addWorker. destruct (_ <=? _); simpl; [constructor|].
  specialize (IH (S i) (set_workers
    (<[uuid i := NewWorker now (uuid i) (c_queueURL c)]> (c_workers c)) c)).
  destruct (Start_loop _ _ _ _ _) as [[r c2] ev2]. simpl in *.
  repeat constructor; eauto.
Qed.

(** X11: on a new consumer, with distinct identifiers and counts that
    are not negative, [Start] succeeds exactly when
    [initial <= max].  It leaves [min(initial, max)] workers in the
    pool, and it launches the metrics reporter and the queue-depth
    monitor only when it succeeds: after a failed [Start] the workers
    run unmonitored. *)
Theorem Start_succeeds_iff_room now uuid config :
  Inj (=) (=) uuid →
  0 <= InitialWorkerCount config →
  0 <= MaxWorkerCount config →
  let '(err, c, ev) := Start now uuid (NewConsumer config) in
  (err = None ↔ InitialWorkerCount config <= MaxWorkerCount config) ∧
  len_workers c = Z.min (InitialWorkerCount config) (MaxWorkerCount config) ∧
  (∀ e, e ∈ reporters →
        (e ∈ ev ↔ InitialWorkerCount config <= MaxWorkerCount config)).
Proof.
  intros Hinj Hinit Hmax.
  destruct (Z_le_gt_dec (InitialWorkerCount config) (MaxWorkerCount config))
    as [Hle|Hgt].
  - destruct (Start_ok now uuid config Hinj) as (c & ev & Hs & _ & Hlen & _); [lia|].
    rewrite Hs. split; [done|]. split; [lia|].
    intros e He. split; [done|]. intros _.
    revert Hs. unfold Start. destruct (Start_loop _ _ _ _ _) as [[r c1] ev1].
    destruct r; [done|]. intros [= <- <-]. apply elem_of_app. by right.
  - destruct (Start_fail now uuid config Hinj) as (c & ev & Hs & Hlen & _); [lia|].
    rewrite Hs. split; [split; [done | lia]|]. split; [lia|].
    intros e He. split; [|lia]. intros Hin. exfalso.
    revert Hs Hin. unfold Start.
    pose proof (Start_loop_events now uuid
                  (Z.to_nat (InitialWorkerCount (c_config (NewConsumer config)))) 0
                  (NewConsumer config)) as Hev.
    destruct (Start_loop _ _ _ _ _) as [[r c1] ev1]. simpl in Hev.
    destruct r; [|done]. intros [= _ <- <-] Hin.
    rewrite Forall_forall in Hev. destruct (Hev e Hin) as (workerID & [->| ->]);
      unfold reporters in He;
      repeat (apply elem_of_cons in He as [He|He]; [discriminate He|]);
      by apply elem_of_nil in He.
Qed.

Lemma Start_succeeds_iff_room_witness :
  let '(err, c, ev) :=
    Start 0 uuid_seq (NewConsumer (with_counts 3 2 2 config_main)) in
  err ≠ None ∧ len_workers c = 2 ∧ EGo "reportMetrics" "" ∉ ev.
Proof.
  pose proof (Start_succeeds_iff_room 0 uuid_seq (with_counts 3 2 2 config_main)
                uuid_seq_inj) as H.
  destruct (Start _ _ _) as [[err c] ev].
  destruct H as (Herr & Hlen & Hrep); [by vm_compute | by vm_compute |].
  split; [|split].
  - intros He. apply Herr in He. vm_compute in He. by apply He.
  - rewrite Hlen. reflexivity.
  - intros Hin. apply (Hrep (EGo "reportMetrics" "")) in Hin.
    + vm_compute in Hin. by apply Hin.
    + apply list_elem_of_here.
Defined.

Lemma activeWorkers_acc order : ∀ a,
  a <= fold_left (λ n (kw : string * Worker),
                    if w_isProcessing kw.2 then n + 1 else n) order a
    <= a + Z.of_nat (length order).
Proof.
  induction order as [|kw order IH]; intros a; simpl; [lia|].
  destruct (w_isProcessing kw.2).
  - specialize (IH (a + 1)). lia.
  - specialize (IH a). lia.
Qed.

Lemma share_bounds (active total : Z) :
  0 <= active <= total → 0 < total →
  (0 <= inject_Z active / inject_Z total * 100)%Q ∧
  (inject_Z active / inject_Z total * 100 <= 100)%Q.
Proof.
  intros Ha Ht. split; [apply rate_nonneg; lia|].
  assert (0 < inject_Z total)%Q as Hpos
    by (change 0%Q with (inject_Z 0); by rewrite <- Zlt_Qlt).
  assert (inject_Z active / inject_Z total <= 1)%Q as H1.
  { apply Qle_shift_div_r; [done|]. rewrite Qmult_1_l. rewrite <- Zle_Qle. lia. }
  assert (100 == 1 * 100)%Q as Heq by ring.
  rewrite Heq at 2. apply Qmult_le_compat_r; [done | discriminate].
Qed.

(** X12: a tick of the metrics reporter sends the number of workers
    as [WorkerCount]; when the pool is empty it sends nothing else (no
    division by zero), otherwise it also sends a [WorkerUtilization]
    sample, the share of workers that are processing, which lies in
    [[0, 100]]. *)
Theorem reportMetrics_tick_samples now order c :
  range_order (c_workers c) order →
  0 <= activeWorkers order <= len_workers c ∧
  (c_workers c = ∅ →
   reportMetrics_tick now order c =
     [EMetric (RecordMetric now "WorkerCount" 0 "Count")]) ∧
  (c_workers c ≠ ∅ →
   ∃ u, reportMetrics_tick now order c =
          [EMetric (RecordMetric now "WorkerCount" (inject_Z (len_workers c)) "Count");
           EMetric (RecordMetric now "WorkerUtilization" u "Percent")] ∧
        (u == inject_Z (activeWorkers order) / inject_Z (len_workers c) * 100)%Q ∧
        (0 <= u)%Q ∧ (u <= 100)%Q).
Proof.
  unfold range_order. intros Hperm.
  assert (Z.of_nat (length order) = len_workers c) as Hlen.
  { unfold len_workers. by rewrite Hperm, length_map_to_list. }
  assert (0 <= activeWorkers order <= len_workers c) as Hact.
  { pose proof (activeWorkers_acc order 0) as H. unfold activeWorkers. lia. }
  split; [exact Hact|]. unfold reportMetrics_tick. split.
  - intros He. unfold len_workers. rewrite He, map_size_empty. done.
  - intros Hne.
    assert (0 < len_workers c) as Hpos.
    { unfold len_workers. apply map_size_non_empty_iff in Hne. lia. }
    replace (0 <? len_workers c) with true by (symmetry; by apply Z.ltb_lt).
    eexists. split; [reflexivity|]. split; [reflexivity|].
    by apply share_bounds.
Qed.

Lemma reportMetrics_tick_samples_witness :
  let c := started_pool config_main in
  let order := map_to_list (c_workers c) in
  range_order (c_workers c) order ∧
  ∃ u, reportMetrics_tick Second order c =
         [EMetric (RecordMetric Second "WorkerCount" 5 "Count");
          EMetric (RecordMetric Second "WorkerUtilization" u "Percent")] ∧
       (0 <= u)%Q ∧ (u <= 100)%Q.
Proof.
  intros c order.
  assert (range_order (c_workers c) order) as Hr
    by (unfold range_order, order; reflexivity).
  split; [exact Hr|].
  destruct (reportMetrics_tick_samples Second order c Hr) as (_ & _ & H).
  destruct H as (u & Heq & _ & Hlo & Hhi).
  - intros He. assert (len_workers c = 0) as H0
      by (unfold len_workers; by rewrite He, map_size_empty).
    vm_compute in H0. discriminate H0.
  - exists u. split; [|split; [exact Hlo | exact Hhi]].
    rewrite Heq. do 3 f_equal.
Defined.

Lemma drain_sent_nil now c : drain_sent now [] c = c.
Proof. done. Qed.

Lemma queueDepth_after_other now metric c :
  Name metric ≠ MetricQueueDepth →
  queueDepth_at (processMetric now metric c) = queueDepth_at c.
Proof.
  intros Hne. unfold queueDepth_at, GetMetric.
  rewrite processMetric_values. by rewrite lookup_insert_ne.
Qed.

(** X13: what the scaler reads as queue depth after the collector has
    drained one tick of the queue-depth monitor.  When the attribute
    fetch succeeds and the count of visible messages parses, the reading
    is that count; when the fetch fails, or the attribute is absent or
    does not parse, the reading is the one before the tick: the scaler
    goes on with the last depth it knew. *)
Theorem monitorQueueDepth_sets_depth Atoi now now' attrs c :
  let c' := drain_sent now' (monitorQueueDepth_tick Atoi now attrs) c in
  match attrs with
  | inl _ => queueDepth_at c' = queueDepth_at c
  | inr attributes =>
      match attributes !! AttrVisible with
      | Some visibleStr =>
          match Atoi visibleStr with
          | Some visible => queueDepth_at c' = inject_Z visible
          | None => queueDepth_at c' = queueDepth_at c
          end
      | None => queueDepth_at c' = queueDepth_at c
      end
  end.
Proof.
  unfold monitorQueueDepth_tick, drain_sent.
  destruct attrs as [err|attributes]; simpl.
  { by apply queueDepth_after_other. }
  assert (∀ c0,
            queueDepth_at
              (drain (map (λ m, (now', m))
                        (sent match attributes !! AttrNotVisible with
                              | Some notVisibleStr =>
                                  match Atoi notVisibleStr with
                                  | Some notVisible =>
                                      [EMetric (RecordMetric now "InFlightMessages"
                                                  (inject_Z notVisible) "Count")]
                                  | None =>
                                      [EMetric (RecordError now
                                                  "in_flight_messages_parse_error")]
                                  end
                              | None => []
                              end)) c0)
            = queueDepth_at c0) as Hsecond.
  { intros c0. destruct (attributes !! AttrNotVisible) as [s|]; [|done].
    destruct (Atoi s); simpl; by apply queueDepth_after_other. }
  unfold sent. rewrite flat_map_app, map_app.
  assert (∀ l1 l2 c0, drain (l1 ++ l2) c0 = drain l2 (drain l1 c0)) as Happ.
  { induction l1 as [|[t m] l1 IH]; intros l2 c0; [done|]. simpl. apply IH. }
  rewrite Happ. fold (sent match attributes !! AttrNotVisible with
                           | Some notVisibleStr =>
                               match Atoi notVisibleStr with
                               | Some notVisible =>
                                   [EMetric (RecordMetric now "InFlightMessages"
                                               (inject_Z notVisible) "Count")]
                               | None =>
                                   [EMetric (RecordError now
                                               "in_flight_messages_parse_error")]
                               end
                           | None => []
                           end).
  rewrite Hsecond.
  destruct (attributes !! AttrVisible) as [s|]; [|done].
  destruct (Atoi s) as [visible|]; simpl.
  - unfold queueDepth_at, GetMetric. rewrite processMetric_values.
    by rewrite lookup_insert_eq.
  - by apply queueDepth_after_other.
Qed.

(** ** Scaler *)

Lemma evaluateScaling_pool_step t m c s :
  pool_inv c → pool_inv (evaluateScaling t m c s).1.2 ∧
  (len_workers c - 1 <= len_workers (evaluateScaling t m c s).1.2 <= len_workers c + 1).
Proof.
  intros Hinv. unfold evaluateScaling.
  destruct (shouldScaleUp _ _ _ _).
  - assert (pool_inv (addWorker (tick_now t) (tick_uuid t) c).1.2) as H
      by (eapply pool_step_inv; [done | constructor]).
    assert (len_workers c <= len_workers (addWorker (tick_now t) (tick_uuid t) c).1.2
            <= len_workers c + 1) as Hl.
    { unfold addWorker. destruct (_ <=? _); simpl; [lia|].
      apply len_insert_bounds. }
    destruct (addWorker _ _ _) as [[??]?]. simpl in *. split; [done | lia].
  - destruct (shouldScaleDown _ _ _ _); [|simpl; split; [done | lia]].
    destruct (_ <? _); [|simpl; split; [done | lia]].
    assert (pool_inv (removeWorker (tick_first t) c).1.2
            ∧ len_workers c - 1 <= len_workers (removeWorker (tick_first t) c).1.2
              <= len_workers c) as [H Hl].
    { unfold removeWorker. destruct (_ <=? _) eqn:E; simpl; [split; [done | lia]|].
      apply Z.leb_gt in E.
      destruct (c_workers c !! tick_first t) as [w|] eqn:Hw; simpl;
        [|split; [done | lia]].
      rewrite (len_delete _ w) by done. unfold pool_inv in *. simpl.
      rewrite (len_delete _ w) by done. split; lia. }
    destruct (removeWorker _ _) as [[??]?]. simpl in *. split; [done | lia].
Qed.

Lemma Scaler_Start_cons t m rest c s :
  Scaler_Start ((t, m) :: rest) c s =
    ((tick_now t, (evaluateScaling t m c s).2)
       :: (Scaler_Start rest (evaluateScaling t m c s).1.2
             (evaluateScaling t m c s).1.1).1.1,
     (Scaler_Start rest (evaluateScaling t m c s).1.2
        (evaluateScaling t m c s).1.1).1.2,
     (Scaler_Start rest (evaluateScaling t m c s).1.2
        (evaluateScaling t m c s).1.1).2).
Proof.
  simpl. destruct (evaluateScaling t m c s) as [[s1 c1] ev]. simpl.
  by destruct (Scaler_Start rest c1 s1) as [[log c2] s2].
Qed.

(** X14: whatever the metrics and however long the scaler runs, the
    pool stays within its bounds: a tick changes the number of workers
    by at most one, and after any run of ticks from a pool with
    [min <= |workers| <= max] the pool is still within these bounds,
    the configuration of pool and scaler being untouched. *)
Theorem Scaler_Start_keeps_pool_bounds ticks : ∀ c s,
  pool_inv c →
  pool_inv (Scaler_Start ticks c s).1.2 ∧
  c_config (Scaler_Start ticks c s).1.2 = c_config c ∧
  s_config (Scaler_Start ticks c s).2 = s_config s ∧
  length (Scaler_Start ticks c s).1.1 = length ticks ∧
  (len_workers c - Z.of_nat (length ticks)
     <= len_workers (Scaler_Start ticks c s).1.2
     <= len_workers c + Z.of_nat (length ticks)).
Proof.
  induction ticks as [|[t m] ticks IH]; intros c s Hinv.
  - simpl. split; [done|]. repeat split; try done; lia.
  - rewrite Scaler_Start_cons. simpl.
    destruct (evaluateScaling_pool_step t m c s Hinv) as [Hinv1 Hlen1].
    destruct (evaluateScaling_config t m c s) as [Hs1 Hc1].
    destruct (IH (evaluateScaling t m c s).1.2 (evaluateScaling t m c s).1.1 Hinv1)
      as (H1 & H2 & H3 & H4 & H5).
    split; [exact H1|]. repeat split; try congruence; lia.
Qed.

Lemma Scaler_Start_keeps_pool_bounds_witness :
  let c := started_pool config_main in
  let ticks := [(tick_at 0, collector_depth 0 100);
                (tick_at (5 * Second), collector_depth (4 * Second) 0);
                (tick_at (31 * Second), collector_depth (4 * Second) 0)] in
  pool_inv c ∧ pool_inv (Scaler_Start ticks c (NewScaler 0 config_main)).1.2.
Proof.
  intros c ticks.
  assert (pool_inv c) as Hinv by (vm_compute; split; discriminate).
  split; [exact Hinv|].
  apply (Scaler_Start_keeps_pool_bounds ticks c (NewScaler 0 config_main) Hinv).
Defined.

(** Within a run whose tick times are all at least [lo], started with
    [lastScaleEvent >= lo], every tick that invokes [removeWorker] comes
    more than the cooldown after [lo]. *)
Lemma removals_after_cooldown ticks : ∀ c s lo,
  Forall (λ tm, lo <= tick_now tm.1) ticks →
  lo <= s_lastScaleEvent s →
  Forall (λ entry, calls_removeWorker entry.2 = true →
                   CooldownPeriod (s_config s) < entry.1 - lo)
    (Scaler_Start ticks c s).1.1.
Proof.
  induction ticks as [|[t m] ticks IH]; intros c s lo Hall Hlast.
  - constructor.
  - rewrite Scaler_Start_cons. simpl.
    apply Forall_cons in Hall as [Ht Hall]. simpl in Ht.
    destruct (evaluateScaling_config t m c s) as [Hs1 _].
    constructor; simpl.
    + intros Hrem. destruct (evaluateScaling_calls t m c s) as [_ Hcalls].
      rewrite Hcalls in Hrem. apply andb_true_iff in Hrem as [_ Hcool].
      apply Z.ltb_lt in Hcool. lia.
    + rewrite <- Hs1. apply IH; [done|].
      rewrite evaluateScaling_lastScaleEvent. by destruct (_ || _).
Qed.

(** X15: in a run of the scaler whose tick times do not decrease, a
    tick that invokes [removeWorker] comes more than the cooldown after
    every earlier tick that invoked [addWorker] or [removeWorker]: two
    scale-downs, or a scale-up attempt and a later scale-down, are never
    closer than the cooldown. *)
Theorem scale_down_waits_for_cooldown ticks : ∀ c s,
  ticks_ordered ticks →
  ∀ i j ti evi tj evj,
    (i < j)%nat →
    (Scaler_Start ticks c s).1.1 !! i = Some (ti, evi) →
    (Scaler_Start ticks c s).1.1 !! j = Some (tj, evj) →
    scaled (ti, evi) = true →
    calls_removeWorker evj = true →
    CooldownPeriod (s_config s) < tj - ti.
Proof.
  induction ticks as [|[t m] ticks IH]; intros c s Hord i j ti evi tj evj Hij Hi Hj Hsc Hrem.
  - done.
  - rewrite Scaler_Start_cons in Hi, Hj. simpl in Hi, Hj.
    apply StronglySorted_cons in Hord as [Hle Hord].
    destruct (evaluateScaling_config t m c s) as [Hs1 _].
    destruct j as [|j]; [lia|]. simpl in Hj.
    destruct i as [|i]; simpl in Hi.
    + injection Hi as <- <-.
      assert (Forall (λ tm : Tick * MetricsCollector, tick_now t <= tick_now tm.1)
                ticks) as Hlo.
      { eapply Forall_impl; [exact Hle|]. by intros [t' m']. }
      assert (tick_now t <= s_lastScaleEvent (evaluateScaling t m c s).1.1) as Hlast.
      { rewrite evaluateScaling_lastScaleEvent.
        unfold scaled in Hsc. simpl in Hsc. rewrite Hsc. lia. }
      pose proof (removals_after_cooldown ticks (evaluateScaling t m c s).1.2
                    (evaluateScaling t m c s).1.1 (tick_now t) Hlo Hlast) as Hall.
      rewrite Forall_forall in Hall. rewrite <- Hs1.
      apply (Hall (tj, evj)); [|done].
      by eapply list_elem_of_lookup_2.
    + rewrite <- Hs1. eapply (IH _ _ Hord i j); eauto. lia.
Qed.

Lemma scale_down_waits_for_cooldown_witness :
  let ticks := [(tick_at 0, collector_depth 0 100);
                (tick_at (5 * Second), collector_depth (4 * Second) 0);
                (tick_at (31 * Second), collector_depth (4 * Second) 0)] in
  let log := (Scaler_Start ticks (started_pool config_main)
                (NewScaler 0 config_main)).1.1 in
  ticks_ordered ticks ∧
  ∃ ev0 ev2, log !! 0%nat = Some (0, ev0) ∧ log !! 2%nat = Some (31 * Second, ev2) ∧
             scaled (0, ev0) = true ∧ calls_removeWorker ev2 = true ∧
             CooldownPeriod config_main < 31 * Second - 0.
Proof.
  intros ticks log.
  assert (ticks_ordered ticks) as Hord.
  { unfold ticks_ordered, ticks. repeat constructor; by vm_compute. }
  split; [exact Hord|].
  destruct (log !! 0%nat) as [[t0 ev0]|] eqn:E0;
    [|exfalso; vm_compute in E0; discriminate E0].
  destruct (log !! 2%nat) as [[t2 ev2]|] eqn:E2;
    [|exfalso; vm_compute in E2; discriminate E2].
  assert (t0 = 0 ∧ scaled (t0, ev0) = true) as [-> Hsc].
  { pose proof E0 as E. vm_compute in E. injection E as <- <-.
    split; reflexivity. }
  assert (t2 = 31 * Second ∧ calls_removeWorker ev2 = true) as [-> Hrem].
  { pose proof E2 as E. vm_compute in E. injection E as <- <-.
    split; reflexivity. }
  exists ev0, ev2.
  split; [reflexivity|]. split; [reflexivity|].
  split; [exact Hsc|]. split; [exact Hrem|].
  apply (scale_down_waits_for_cooldown ticks (started_pool config_main)
           (NewScaler 0 config_main) Hord 0%nat 2%nat 0 ev0 (31 * Second) ev2);
    [lia | exact E0 | exact E2 | exact Hsc | exact Hrem].
Defined.

(** X16: a tick never invokes both pool operations, and scale-up
    wins: whenever the scale-up predicate holds [addWorker] is invoked
    and [removeWorker] is not, even when the scale-down predicate holds
    too.  With [ScaleDownThreshold <= ScaleUpThreshold] the two
    predicates cannot hold together. *)
Theorem scale_up_takes_precedence t m c s :
  (calls_addWorker (evaluateScaling t m c s).2
   && calls_removeWorker (evaluateScaling t m c s).2 = false) ∧
  (scale_up_holds t m s = true →
   calls_addWorker (evaluateScaling t m c s).2 = true ∧
   calls_removeWorker (evaluateScaling t m c s).2 = false) ∧
  ((ScaleDownThreshold (s_config s) <= ScaleUpThreshold (s_config s))%Q →
   scale_up_holds t m s && scale_down_holds t m s = false).
Proof.
  destruct (evaluateScaling_calls t m c s) as [-> ->].
  split; [|split].
  - by destruct (scale_up_holds t m s).
  - by intros ->.
  - intros Hord. destruct (scale_down_holds t m s) eqn:Hd.
    + unfold scale_up_holds. rewrite shouldScaleDown_not_up; done.
    + by rewrite andb_false_r.
Qed.

Lemma scale_up_takes_precedence_witness :
  let t := tick_at (5 * Second) in
  let s := NewScaler 0 config_main in
  scale_up_holds t collector_E s = true ∧
  calls_removeWorker
    (evaluateScaling t collector_E (started_pool config_main) s).2 = false.
Proof.
  intros t s.
  assert (scale_up_holds t collector_E s = true) as Hup by (vm_compute; reflexivity).
  split; [exact Hup|].
  apply (proj1 (proj2 (scale_up_takes_precedence t collector_E
                         (started_pool config_main) s)) Hup).
Defined.

(** ** Worker *)

Lemma handleBatch_samples handler client batch : ∀ w,
  length (List.filter is_processing_sample (handleBatch handler client batch w).1)
    = length batch ∧
  List.filter (is_metric_named "Error_poll_error")
    (handleBatch handler client batch w).1 = [].
Proof.
  induction batch as [|d batch IH]; intros w; [done|].
  simpl. destruct (handler (d_msg d)) as [err|] eqn:E.
  - rewrite (handleDelivery_failure _ _ _ _ err) by done.
    destruct (IH (set_isProcessing false (set_isProcessing true w))) as [IH1 IH2].
    destruct (handleBatch _ _ _ _) as [ev' w2]. simpl in *.
    unfold handleError.
    destruct (ChangeMessageVisibility _ _ _ _); simpl; rewrite IH1, IH2; done.
  - rewrite handleDelivery_success by done.
    destruct (IH (set_isProcessing false
                    (set_processedCount (wrap64 (w_processedCount w + 1))
                       (set_isProcessing true w)))) as [IH1 IH2].
    destruct (handleBatch _ _ _ _) as [ev' w2]. simpl in *.
    rewrite IH1, IH2. done.
Qed.

Lemma handleBatch_fields handler client batch : ∀ w,
  w_id (handleBatch handler client batch w).2 = w_id w ∧
  w_queueURL (handleBatch handler client batch w).2 = w_queueURL w ∧
  w_done (handleBatch handler client batch w).2 = w_done w ∧
  w_lastWindowTime (handleBatch handler client batch w).2 = w_lastWindowTime w ∧
  (w_isProcessing w = false →
   w_isProcessing (handleBatch handler client batch w).2 = false).
Proof.
  induction batch as [|d batch IH]; intros w; [done|].
  simpl. destruct (handler (d_msg d)) as [err|] eqn:E.
  - rewrite (handleDelivery_failure _ _ _ _ err) by done.
    destruct (IH (set_isProcessing false (set_isProcessing true w)))
      as (H1 & H2 & H3 & H4 & H5).
    destruct (handleBatch _ _ _ _) as [ev' w2]. simpl in *.
    repeat split; try done. intros _. by apply H5.
  - rewrite handleDelivery_success by done.
    destruct (IH (set_isProcessing false
                    (set_processedCount (wrap64 (w_processedCount w + 1))
                       (set_isProcessing true w)))) as (H1 & H2 & H3 & H4 & H5).
    destruct (handleBatch _ _ _ _) as [ev' w2]. simpl in *.
    repeat split; try done. intros _. by apply H5.
Qed.

Lemma handled_app handler (l1 l2 : list Delivery) :
  handled handler (l1 ++ l2) = handled handler l1 ++ handled handler l2.
Proof. unfold handled. apply List.filter_app. Qed.

(** X17: the poll loop accounts for every message it receives.  For
    any sequence of rounds, the worker's trace holds exactly one delete
    call per message the handler accepted and exactly one
    change-visibility call per message it refused, one processing-time
    sample per message, and one [Error_poll_error] sample per failed
    poll; and nothing after the round that finds a stop signal: the
    rounds behind it change neither the trace nor the worker. *)
Theorem Worker_Start_accounts_for_every_message handler client rounds : ∀ w,
  let ev := (Worker_Start handler client rounds w).1 in
  let messages := flat_map polled (live rounds) in
  length (List.filter is_delete ev) = length (handled handler messages) ∧
  (length (List.filter is_changeVisibility ev)
   + length (handled handler messages) = length messages)%nat ∧
  length (List.filter is_processing_sample ev) = length messages ∧
  length (List.filter (is_metric_named "Error_poll_error") ev)
    = length (List.filter poll_failed (live rounds)) ∧
  Worker_Start handler client (live rounds) w = Worker_Start handler client rounds w.
Proof.
  induction rounds as [|r rounds IH]; intros w; [done|].
  simpl. destruct (r_stopped r) eqn:Hstop; [done|].
  simpl. rewrite Hstop.
  destruct (r_poll r) as [err|batch] eqn:Hp.
  - assert (polled r = []) as -> by (unfold polled; by rewrite Hp).
    assert (poll_failed r = true) as -> by (unfold poll_failed; by rewrite Hp).
    destruct (IH w) as (H1 & H2 & H3 & H4 & H5). rewrite H5.
    destruct (Worker_Start handler client rounds w) as [ev' w'] eqn:E.
    simpl in *. repeat split; try done. by rewrite H4.
  - assert (polled r = batch) as -> by (unfold polled; by rewrite Hp).
    assert (poll_failed r = false) as -> by (unfold poll_failed; by rewrite Hp).
    pose proof (handleBatch_calls handler client batch w) as [B1 B2].
    pose proof (handleBatch_samples handler client batch w) as [B3 B4].
    destruct (handleBatch handler client batch w) as [ev1 w1].
    destruct (IH w1) as (H1 & H2 & H3 & H4 & H5). rewrite H5.
    destruct (Worker_Start handler client rounds w1) as [ev' w'] eqn:E.
    simpl in *. rewrite !List.filter_app, handled_app, !length_app.
    rewrite B4. simpl. repeat split; try done; lia.
Qed.

(** X18: the poll loop touches only the two counters of its worker.
    Identifier, queue, stop channel and window start are those at the
    start; [isProcessing] is false again when the loop is between
    messages; and, as long as the counter does not wrap, the count of
    processed messages has grown by the number of messages the handler
    accepted. *)
Theorem Worker_Start_counts_accepted handler client rounds : ∀ w,
  w_isProcessing w = false →
  0 <= w_processedCount w →
  w_processedCount w
    + Z.of_nat (length (handled handler (flat_map polled (live rounds)))) < 2^63 →
  let w' := (Worker_Start handler client rounds w).2 in
  w_processedCount w'
    = w_processedCount w
      + Z.of_nat (length (handled handler (flat_map polled (live rounds)))) ∧
  w_isProcessing w' = false ∧
  w_id w' = w_id w ∧ w_queueURL w' = w_queueURL w ∧ w_done w' = w_done w ∧
  w_lastWindowTime w' = w_lastWindowTime w.
Proof.
  induction rounds as [|r rounds IH]; intros w Hidle H0 Hlt.
  - simpl. repeat split; try done. lia.
  - simpl in *. destruct (r_stopped r) eqn:Hstop.
    + simpl. repeat split; try done. lia.
    + simpl in *.
      destruct (r_poll r) as [err|batch] eqn:Hp.
      * assert (polled r = []) as Hpl by (unfold polled; by rewrite Hp).
        rewrite Hpl in *. simpl in *.
        destruct (IH w Hidle H0 Hlt) as (H1 & H2 & H3).
        destruct (Worker_Start handler client rounds w) as [ev' w'].
        simpl in *. rewrite ?Hpl. simpl. done.
      * assert (polled r = batch) as Hpl by (unfold polled; by rewrite Hp).
        rewrite Hpl in *.
        rewrite handled_app, length_app, Nat2Z.inj_add in Hlt.
        rewrite handled_app, length_app, Nat2Z.inj_add.
        destruct (handleBatch_count handler client batch w) as [C1 C2]; [done | lia |].
        destruct (handleBatch_fields handler client batch w)
          as (F1 & F2 & F3 & F4 & F5).
        destruct (handleBatch handler client batch w) as [ev1 w1]. simpl in *.
        destruct (IH w1) as (H1 & H2 & H3 & H4 & H5 & H6); [auto | lia | lia |].
        destruct (Worker_Start handler client rounds w1) as [ev' w']. simpl in *.
        rewrite ?Hpl, ?handled_app, ?length_app, ?Nat2Z.inj_add.
        repeat split; try congruence. lia.
Qed.

Lemma Worker_Start_counts_accepted_witness :
  let rounds := [ {| r_stopped := false; r_now := 0;
                     r_poll := PollMessages [delivery_m; delivery_m] |};
                  {| r_stopped := false; r_now := 11 * Second;
                     r_poll := PollError "timeout" |};
                  {| r_stopped := true; r_now := 12 * Second;
                     r_poll := PollMessages [delivery_m] |} ] in
  let w := NewWorker 0 "w0" "queue" in
  w_processedCount w + 2 < 2^63 ∧
  w_processedCount (Worker_Start handler_placeholder client_ok rounds w).2 = 2.
Proof.
  intros rounds w. split; [reflexivity|].
  apply (Worker_Start_counts_accepted handler_placeholder client_ok rounds w);
    [reflexivity | by vm_compute | by vm_compute].
Defined.

(** X19: a tick of the utilization ticker always moves the window
    start to the tick's second.  When at least one whole second has
    passed it publishes one sample and resets the count to 0; when none
    has, it publishes nothing and keeps the count, which the next
    publishing tick reports against the time since this tick only. *)
Theorem trackUtilization_tick_window nowT w :
  let '(ev, w') := trackUtilization_tick nowT w in
  let elapsed := wrap64 (Unix nowT - w_lastWindowTime w) in
  w_lastWindowTime w' = Unix nowT ∧
  (0 < elapsed → length ev = 1%nat ∧ w_processedCount w' = 0) ∧
  (elapsed <= 0 →
   ev = [] ∧ w_processedCount w' = w_processedCount w ∧
   ∀ laterT,
     0 < wrap64 (Unix laterT - Unix nowT) →
     (trackUtilization_tick laterT w').1 =
       [EMetric (RecordWorkerUtilization laterT
          (let u := (inject_Z (w_processedCount w)
                     / inject_Z (wrap64 (Unix laterT - Unix nowT)) * 100)%Q in
           if Qgtb u 100 then 100%Q else u))]).
Proof.
  destruct (trackUtilization_tick nowT w) as [ev w'] eqn:Etick.
  unfold trackUtilization_tick in Etick. simpl in Etick.
  destruct (0 <? _) eqn:E; injection Etick as <- <-; simpl.
  - apply Z.ltb_lt in E. split; [done|]. split; [done | lia].
  - apply Z.ltb_ge in E. split; [done|]. split; [lia|]. intros _.
    split; [done|]. split; [done|]. intros laterT Hlater.
    by rewrite trackUtilization_tick_publishes.
Qed.

Lemma trackUtilization_tick_window_witness :
  let w := set_processedCount 3 (NewWorker (5 * Second) "w0" "queue") in
  let '(ev, w') := trackUtilization_tick (5 * Second + 1) w in
  ev = [] ∧ w_processedCount w' = 3 ∧
  (trackUtilization_tick (15 * Second) w').1 =
    [EMetric (RecordWorkerUtilization (15 * Second) (3 / 10 * 100))].
Proof.
  intros w.
  pose proof (trackUtilization_tick_window (5 * Second + 1) w) as H.
  destruct (trackUtilization_tick (5 * Second + 1) w) as [ev w'].
  destruct H as (_ & _ & H). destruct H as (Hev & Hc & Hlater); [by vm_compute|].
  split; [exact Hev|]. split; [exact Hc|].
  rewrite (Hlater (15 * Second)) by (by vm_compute).
  reflexivity.
Defined.
